(** * build-roster.py: the roster generator, embedded and verified

    The script fetches a CSV export, parses a membership roster out of it
    ([parse_members]), and renders a static page ([render_member_row],
    [generate_html], [main]).

    Strings.  A Python [str] is a sequence of Unicode code points.  This
    development fixes the code points below 256, one per [ascii] value, and
    writes out on that range the tables the script relies on: which
    characters [str.strip], [str.splitlines] and [int] treat as white space
    or as line ends, and what [str.upper] maps each character to.

    Exceptions.  Code that can raise returns a [result].  [int] raises
    nothing but ValueError and returns an [option]; the [try]/[except
    ValueError] around it is a [match].

    Iterators.  [csv.reader] and [csv.DictReader] are pulled one item at a
    time by the [for] loop of [parse_members]; an iterator over a finite
    text is the finite trace [gen] of what successive [next] calls give. *)

From Stdlib Require Import List String Ascii ZArith NArith Bool Lia.
From Stdlib Require Import DecimalString Sorting.Sorted Sorting.Permutation.
Import ListNotations.
Open Scope string_scope.
Open Scope Z_scope.

(** ** Python: exceptions, built-in string operations *)

Module Py.

Inductive exn_class :=
| AttributeError
| ValueError
| CsvError
| URLError
| UnicodeDecodeError
| TimeoutError
| OSError
| UnicodeEncodeError.

(** An exception object: its class and [str(e)]. *)
Record exn := Exn { exn_cls : exn_class; exn_msg : string }.

Inductive result (A : Type) :=
| Ok (a : A)
| Raise (e : exn).
Arguments Ok {A} a.
Arguments Raise {A} e.

Definition bind {A B} (c : result A) (k : A -> result B) : result B :=
  match c with
  | Ok a => k a
  | Raise e => Raise e
  end.

(** A finite iterator: [Stop] is StopIteration, [Fail e] an exception
    raised by [next]. *)
Inductive gen (A : Type) :=
| Stop
| Yield (a : A) (rest : gen A)
| Fail (e : exn).
Arguments Stop {A}.
Arguments Yield {A} a rest.
Arguments Fail {A} e.

Definition code (c : ascii) : N := N_of_ascii c.
Definition chr (n : N) : ascii := ascii_of_N n.
Definition str1 (c : ascii) : string := String c EmptyString.

Definition LF : ascii := chr 10.
Definition CR : ascii := chr 13.
Definition DQUOTE : ascii := chr 34.
Definition nl : string := str1 LF.
Definition dq : string := str1 DQUOTE.

Definition in_range (lo hi : N) (c : ascii) : bool :=
  ((lo <=? code c) && (code c <=? hi))%N.

(** [str.isspace] on one character: U+0009..000D, U+001C..001F, U+0020,
    U+0085, U+00A0. *)
Definition isspace (c : ascii) : bool :=
  in_range 9 13 c || in_range 28 32 c
  || (code c =? 133)%N || (code c =? 160)%N.

(** The characters [int] skips around a number: C white space for
    characters below 128, Unicode white space above. *)
Definition int_space (c : ascii) : bool :=
  in_range 9 13 c || (code c =? 32)%N
  || (code c =? 133)%N || (code c =? 160)%N.

(** The line boundaries of [str.splitlines]: LF, VT, FF, CR, FS, GS, RS,
    NEL. *)
Definition is_linebreak (c : ascii) : bool :=
  in_range 10 13 c || in_range 28 30 c || (code c =? 133)%N.

Fixpoint lstrip_with (sp : ascii -> bool) (s : string) : string :=
  match s with
  | EmptyString => EmptyString
  | String c s' => if sp c then lstrip_with sp s' else s
  end.

Fixpoint rstrip_with (sp : ascii -> bool) (s : string) : string :=
  match s with
  | EmptyString => EmptyString
  | String c s' =>
      match rstrip_with sp s' with
      | EmptyString => if sp c then EmptyString else str1 c
      | r => String c r
      end
  end.

Definition strip_with (sp : ascii -> bool) (s : string) : string :=
  rstrip_with sp (lstrip_with sp s).

(** [s.strip()] *)
Definition strip (s : string) : string := strip_with isspace s.

(** [s.split(sep)] for a one-character separator. *)
Fixpoint split (sep : ascii) (s : string) : list string :=
  match s with
  | EmptyString => [EmptyString]
  | String c s' =>
      if Ascii.eqb c sep then EmptyString :: split sep s'
      else match split sep s' with
           | p :: ps => String c p :: ps
           | [] => [str1 c]
           end
  end.

(** [s.replace(old, new)] for a one-character [old]. *)
Fixpoint replace (old : ascii) (new : string) (s : string) : string :=
  match s with
  | EmptyString => EmptyString
  | String c s' =>
      if Ascii.eqb c old then new ++ replace old new s'
      else String c (replace old new s')
  end.

(** [sep.join(parts)] *)
Definition join (sep : string) (parts : list string) : string :=
  String.concat sep parts.

(** [sub in s] *)
Fixpoint contains (sub s : string) : bool :=
  String.prefix sub s
  || match s with
     | EmptyString => false
     | String _ s' => contains sub s'
     end.

(** [s.splitlines()]: [line] is the text since the last boundary.  CR LF
    is one boundary; a boundary at the very end opens no further line. *)
Fixpoint splitlines_from (line : string) (s : string) : list string :=
  match s with
  | EmptyString =>
      match line with
      | EmptyString => []
      | _ => [line]
      end
  | String c rest =>
      if is_linebreak c then
        line :: match rest with
                | String c' rest' =>
                    if Ascii.eqb c CR && Ascii.eqb c' LF
                    then splitlines_from EmptyString rest'
                    else splitlines_from EmptyString rest
                | EmptyString => splitlines_from EmptyString rest
                end
      else splitlines_from (line ++ str1 c) rest
  end.

Definition splitlines (s : string) : list string :=
  splitlines_from EmptyString s.

(** [str(n)] for an [int]. *)
Definition str_of_int (n : Z) : string :=
  NilZero.string_of_int (Z.to_int n).

Definition digit_val (c : ascii) : option Z :=
  if in_range 48 57 c then Some (Z.of_N (code c) - 48) else None.

(** The digits of an integer literal, single underscores allowed between
    digits; returns the value and the number of digits read. *)
Fixpoint int_digits (acc : Z) (ndigits : N) (prev_underscore : bool)
    (s : string) : option (Z * N) :=
  match s with
  | EmptyString => if prev_underscore then None else Some (acc, ndigits)
  | String c s' =>
      if Ascii.eqb c "_" then
        if prev_underscore then None else int_digits acc ndigits true s'
      else
        match digit_val c with
        | Some d => int_digits (10 * acc + d) (ndigits + 1)%N false s'
        | None => None
        end
  end.

(** The default of [sys.get_int_max_str_digits()]. *)
Definition int_max_str_digits : N := 4300.

(** [int(s)]: white space around, an optional sign, then decimal digits.
    On a string [int] can only raise ValueError, which is [None] here. *)
Definition int (s : string) : option Z :=
  let body := strip_with int_space s in
  let '(negative, digits) :=
    match body with
    | String "-" r => (true, r)
    | String "+" r => (false, r)
    | _ => (false, body)
    end in
  match digits with
  | EmptyString => None
  | String c _ =>
      if Ascii.eqb c "_" then None
      else
        match int_digits 0 0%N false digits with
        | None => None
        | Some (v, n) =>
            if (n <=? int_max_str_digits)%N
            then Some (if negative then - v else v)
            else None
        end
  end.

(** [s.upper()] of one character, as code points: two characters below
    256 have an upper case above 255 and one has a two-letter upper case. *)
Definition upper_chr (c : ascii) : list N :=
  let n := code c in
  if in_range 97 122 c then [(n - 32)%N]
  else if (n =? 181)%N then [924%N]
  else if (n =? 223)%N then [83%N; 83%N]
  else if (n =? 255)%N then [376%N]
  else if in_range 224 254 c && negb (n =? 247)%N then [(n - 32)%N]
  else [n].

Fixpoint codepoints (s : string) : list N :=
  match s with
  | EmptyString => []
  | String c s' => code c :: codepoints s'
  end.

Fixpoint upper (s : string) : list N :=
  match s with
  | EmptyString => []
  | String c s' => (upper_chr c ++ upper s')%list
  end.

(** [l.sort(key=key)]: ascending and stable.  An element is inserted in
    front of the first element whose key is not smaller. *)
Fixpoint insert_by {A} (key : A -> Z) (x : A) (l : list A) : list A :=
  match l with
  | [] => [x]
  | y :: l' =>
      if key x <=? key y then x :: y :: l' else y :: insert_by key x l'
  end.

Fixpoint sort_by {A} (key : A -> Z) (l : list A) : list A :=
  match l with
  | [] => []
  | x :: l' => insert_by key x (sort_by key l')
  end.

End Py.

Import Py.

Notation "x <- c ;; k" := (bind c (fun x => k))
  (at level 61, c at next level, right associativity).


(** ** The csv module: [csv.reader] with the excel dialect, [csv.DictReader] *)

Module Csv.

(** The reader's states.  The dialect has no escape character, so the
    states that follow one are left out. *)
Inductive ParserState :=
| START_RECORD
| START_FIELD
| IN_FIELD
| IN_QUOTED_FIELD
| QUOTE_IN_QUOTED_FIELD
| EAT_CRNL.

Definition state_eqb (a b : ParserState) : bool :=
  match a, b with
  | START_RECORD, START_RECORD
  | START_FIELD, START_FIELD
  | IN_FIELD, IN_FIELD
  | IN_QUOTED_FIELD, IN_QUOTED_FIELD
  | QUOTE_IN_QUOTED_FIELD, QUOTE_IN_QUOTED_FIELD
  | EAT_CRNL, EAT_CRNL => true
  | _, _ => false
  end.

Record ReaderObj := {
  state : ParserState;
  fields : list string;
  field : string;
  field_len : N
}.

(** The excel dialect: doublequote on, skipinitialspace off, strict off. *)
Definition delimiter : ascii := ",".
Definition quotechar : ascii := DQUOTE.

(** [csv.field_size_limit()] *)
Definition field_limit : N := 131072.

Definition field_too_large : exn :=
  Exn CsvError "field larger than field limit (131072)".

Definition parse_reset : ReaderObj :=
  {| state := START_RECORD; fields := []; field := EmptyString; field_len := 0 |}.

Definition set_state (self : ReaderObj) (st : ParserState) : ReaderObj :=
  {| state := st; fields := fields self; field := field self;
     field_len := field_len self |}.

Definition parse_save_field (self : ReaderObj) : ReaderObj :=
  {| state := state self; fields := (fields self ++ [field self])%list;
     field := EmptyString; field_len := 0 |}.

Definition parse_add_char (self : ReaderObj) (c : ascii) : result ReaderObj :=
  if (field_limit <=? field_len self)%N then Raise field_too_large
  else Ok {| state := state self; fields := fields self;
             field := field self ++ str1 c;
             field_len := (field_len self + 1)%N |}.

Definition is_crlf (c : ascii) : bool := Ascii.eqb c LF || Ascii.eqb c CR.

(** One character of a line, or the end of the line ([None]). *)
Definition parse_process_char (self : ReaderObj) (c : option ascii)
    : result ReaderObj :=
  let start_field (self : ReaderObj) :=
    match c with
    | None => Ok (set_state (parse_save_field self) START_RECORD)
    | Some ch =>
        if is_crlf ch then Ok (set_state (parse_save_field self) EAT_CRNL)
        else if Ascii.eqb ch quotechar then Ok (set_state self IN_QUOTED_FIELD)
        else if Ascii.eqb ch delimiter then Ok (parse_save_field self)
        else self' <- parse_add_char self ch ;; Ok (set_state self' IN_FIELD)
    end in
  match state self with
  | START_RECORD =>
      match c with
      | None => Ok self
      | Some ch =>
          if is_crlf ch then Ok (set_state self EAT_CRNL)
          else start_field (set_state self START_FIELD)
      end
  | START_FIELD => start_field self
  | IN_FIELD =>
      match c with
      | None => Ok (set_state (parse_save_field self) START_RECORD)
      | Some ch =>
          if is_crlf ch then Ok (set_state (parse_save_field self) EAT_CRNL)
          else if Ascii.eqb ch delimiter
          then Ok (set_state (parse_save_field self) START_FIELD)
          else parse_add_char self ch
      end
  | IN_QUOTED_FIELD =>
      match c with
      | None => Ok self
      | Some ch =>
          if Ascii.eqb ch quotechar then Ok (set_state self QUOTE_IN_QUOTED_FIELD)
          else parse_add_char self ch
      end
  | QUOTE_IN_QUOTED_FIELD =>
      match c with
      | None => Ok (set_state (parse_save_field self) START_RECORD)
      | Some ch =>
          if Ascii.eqb ch quotechar
          then self' <- parse_add_char self ch ;; Ok (set_state self' IN_QUOTED_FIELD)
          else if Ascii.eqb ch delimiter
          then Ok (set_state (parse_save_field self) START_FIELD)
          else if is_crlf ch
          then Ok (set_state (parse_save_field self) EAT_CRNL)
          else self' <- parse_add_char self ch ;; Ok (set_state self' IN_FIELD)
      end
  | EAT_CRNL =>
      match c with
      | None => Ok (set_state self START_RECORD)
      | Some ch =>
          if is_crlf ch then Ok self
          else Raise (Exn CsvError "new-line character seen in unquoted field")
      end
  end.

(** The characters of one line, then the end of the line. *)
Fixpoint feed_line (self : ReaderObj) (line : string) : result ReaderObj :=
  match line with
  | EmptyString => parse_process_char self None
  | String c line' =>
      self' <- parse_process_char self (Some c) ;; feed_line self' line'
  end.

(** [csv.reader(lines)]: each [next] resets the parser and feeds lines
    until a record is complete; when the lines run out inside a record,
    what was read of it is the last record. *)
Fixpoint reader_from (self : ReaderObj) (lines : list string)
    : gen (list string) :=
  match lines with
  | [] =>
      if negb (field_len self =? 0)%N || state_eqb (state self) IN_QUOTED_FIELD
      then Yield (fields (parse_save_field self)) Stop
      else Stop
  | line :: rest =>
      match feed_line self line with
      | Raise e => Fail e
      | Ok self' =>
          if state_eqb (state self') START_RECORD
          then Yield (fields self') (reader_from parse_reset rest)
          else reader_from self' rest
      end
  end.

Definition reader (lines : list string) : gen (list string) :=
  reader_from parse_reset lines.

(** Iterating [io.StringIO(text)]: the lines of [text], each with its
    terminating LF; [line] is the text since the last LF. *)
Fixpoint readlines_from (line : string) (text : string) : list string :=
  match text with
  | EmptyString =>
      match line with
      | EmptyString => []
      | _ => [line]
      end
  | String c text' =>
      if Ascii.eqb c LF then (line ++ nl) :: readlines_from EmptyString text'
      else readlines_from (line ++ str1 c) text'
  end.

Definition StringIO (text : string) : list string :=
  readlines_from EmptyString text.

(** The values of a row dictionary: a field, [None] for a field the row
    is too short for, or the list of surplus fields. *)
Inductive value :=
| Str (s : string)
| NoneV
| Rest (l : list string).

(** A row dictionary; the key [None] is the reader's [restkey]. *)
Definition dict := list (option string * value).

Definition key_eqb (a b : option string) : bool :=
  match a, b with
  | Some x, Some y => String.eqb x y
  | None, None => true
  | _, _ => false
  end.

(** [d[k] = v] *)
Fixpoint dict_set (d : dict) (k : option string) (v : value) : dict :=
  match d with
  | [] => [(k, v)]
  | (k', v') :: d' =>
      if key_eqb k' k then (k', v) :: d' else (k', v') :: dict_set d' k v
  end.

(** [d.get(k, default)] *)
Fixpoint get (d : dict) (k : string) (default : value) : value :=
  match d with
  | [] => default
  | (k', v) :: d' => if key_eqb k' (Some k) then v else get d' k default
  end.

(** [dict(zip(fieldnames, row))], built on [d] *)
Fixpoint dict_zip (d : dict) (fieldnames row : list string) : dict :=
  match fieldnames, row with
  | k :: ks, v :: vs => dict_zip (dict_set d (Some k) (Str v)) ks vs
  | _, _ => d
  end.

Definition make_row (fieldnames row : list string) : dict :=
  let d := dict_zip [] fieldnames row in
  let lf := List.length fieldnames in
  let lr := List.length row in
  if (lf <? lr)%nat then dict_set d None (Rest (skipn lf row))
  else if (lr <? lf)%nat then
    fold_left (fun d key => dict_set d (Some key) NoneV) (skipn lr fieldnames) d
  else d.

(** The rows after the header: blank rows are skipped. *)
Fixpoint dict_rows (fieldnames : list string) (rows : gen (list string))
    : gen dict :=
  match rows with
  | Stop => Stop
  | Fail e => Fail e
  | Yield row rest =>
      match row with
      | [] => dict_rows fieldnames rest
      | _ => Yield (make_row fieldnames row) (dict_rows fieldnames rest)
      end
  end.

(** [csv.DictReader(f)]: the first record names the fields. *)
Definition DictReader (f : list string) : gen dict :=
  match reader f with
  | Stop => Stop
  | Fail e => Fail e
  | Yield fieldnames rest => dict_rows fieldnames rest
  end.

End Csv.


(** ** scripts/build-roster.py *)

Module BuildRoster.
Import Csv.

Definition MONTHS : list string :=
  ["Jan"; "Feb"; "Mar"; "Apr"; "May"; "Jun";
   "Jul"; "Aug"; "Sep"; "Oct"; "Nov"; "Dec"].

(** Convert MM/DD/YYYY to 'Mon DD, YYYY'. *)
Definition format_date (date_str : string) : string :=
  let parts := split "/" date_str in
  match parts with
  | [part0; part1; part2] =>
      match int part0 with
      | None => date_str
      | Some m =>
          let month := m - 1 in
          match int part1 with
          | None => date_str
          | Some day =>
              let year := part2 in
              if (0 <=? month) && (month <? 12)
              then nth (Z.to_nat month) MONTHS EmptyString
                   ++ " " ++ str_of_int day ++ ", " ++ year
              else date_str
          end
      end
  | _ => date_str
  end.

Definition html_escape (text : string) : string :=
  replace DQUOTE "&quot;"
    (replace ">" "&gt;" (replace "<" "&lt;" (replace "&" "&amp;" text))).

(** A member dictionary: its four keys. *)
Record member := {
  callsign : string;
  name : string;
  join_date : string;
  qc_number : Z
}.

Definition no_strip (type_name : string) : exn :=
  Exn AttributeError ("'" ++ type_name ++ "' object has no attribute 'strip'").

(** [v.strip()] on a value of a row dictionary. *)
Definition value_strip (v : value) : result string :=
  match v with
  | Str s => Ok (strip s)
  | NoneV => Raise (no_strip "NoneType")
  | Rest _ => Raise (no_strip "list")
  end.

(** The header row: the index of the first line containing "Callsign",
    counted from [i]; [None] is the script's -1. *)
Fixpoint find_header (i : nat) (lines : list string) : option nat :=
  match lines with
  | [] => None
  | line :: rest =>
      if contains "Callsign" line then Some i else find_header (S i) rest
  end.

(** The loop over the rows, first half: the four fields of a row. *)
Definition row_fields (row : dict) : result member :=
  callsign <- value_strip (get row "Callsign" (Str EmptyString)) ;;
  name <- value_strip (get row "Name" (Str EmptyString)) ;;
  join_date <- value_strip (get row "Join Date" (Str EmptyString)) ;;
  qc_text <- value_strip (get row "QC #" (Str "0")) ;;
  let qc_number :=
    match int qc_text with
    | Some n => n
    | None => 0
    end in
  Ok {| callsign := callsign; name := name; join_date := join_date;
        qc_number := qc_number |}.

(** [if callsign and qc_number] *)
Definition is_valid (m : member) : bool :=
  negb (String.eqb (callsign m) EmptyString) && negb (qc_number m =? 0).

(** The loop over the rows, second half: a valid row is appended. *)
Definition row_body (row : dict) (members : list member)
    : result (list member) :=
  m <- row_fields row ;;
  if is_valid m then Ok (members ++ [m])%list else Ok members.

(** [for row in reader: ...] *)
Fixpoint for_rows (reader : gen dict) (members : list member)
    : result (list member) :=
  match reader with
  | Stop => Ok members
  | Fail e => Raise e
  | Yield row rest =>
      members' <- row_body row members ;; for_rows rest members'
  end.

(** The rows the loop of [parse_members] runs over. *)
Definition data_rows (lines : list string) (header_idx : nat) : gen dict :=
  let data_text := join nl (skipn header_idx lines) in
  DictReader (StringIO data_text).

(** [parse_members] up to its last statement but one: the list [members]
    as the loop leaves it, before it is sorted. *)
Definition members_before_sort (csv_text : string) : result (list member) :=
  let lines := splitlines csv_text in
  match find_header 0 lines with
  | None => Ok []
  | Some header_idx => for_rows (data_rows lines header_idx) []
  end.

Definition parse_members (csv_text : string) : result (list member) :=
  let lines := splitlines csv_text in
  match find_header 0 lines with
  | None => Ok []
  | Some header_idx =>
      members <- for_rows (data_rows lines header_idx) [] ;;
      Ok (sort_by qc_number members)
  end.

Definition founder_badge : string :=
  join dq ["<span class="; "founder-badge"; ">Founder</span>"].
Definition tech_badge : string :=
  join dq ["<span class="; "tech-badge"; ">Resident Computer Guy</span>"].

(** The row class and the badge of a member. *)
Definition row_class_badge (m : member) : string * string :=
  if qc_number m <=? 3 then ("founder", founder_badge)
  else if list_eq_dec N.eq_dec (upper (callsign m)) (codepoints "W6JSV")
  then ("tech-guy", tech_badge)
  else (EmptyString, EmptyString).

(** The fixed text of a row, between its fields. *)
Definition row_text_0 : string :=
  join dq ["                <div class="; "member-row "].
Definition row_text_1 : string :=
  join dq [EmptyString; ">
                    <span class="; "qc-number"; ">QC #"].
Definition row_text_2 : string :=
  join dq ["</span>
                    <span class="; "callsign"; ">
                        <a href="; "https://www.qrz.com/db/"].
Definition row_text_3 : string :=
  join dq [EmptyString; " target="; "_blank"; " rel="; "noopener"; ">"].
Definition row_text_4 : string :=
  join dq ["</a>
                    </span>
                    <span class="; "name"; ">"].
Definition row_text_5 : string :=
  EmptyString.
Definition row_text_6 : string :=
  join dq ["</span>
                    <span class="; "join-date"; ">"].
Definition row_text_7 : string :=
  "</span>
                </div>".

Definition render_member_row (m : member) : string :=
  let qc := qc_number m in
  let callsign := html_escape (callsign m) in
  let name := html_escape (name m) in
  let date := html_escape (format_date (join_date m)) in
  let '(row_class, badge) := row_class_badge m in
  row_text_0 ++ row_class ++ row_text_1 ++ str_of_int qc ++ row_text_2
  ++ callsign ++ row_text_3 ++ callsign ++ row_text_4
  ++ name ++ row_text_5 ++ badge ++ row_text_6 ++ date ++ row_text_7.

(** The page template up to the member count. *)
Definition page_before_count : string :=
  join dq [
"<!DOCTYPE html>
<html lang=";
"en";
">
<head>
    <meta charset=";
"UTF-8";
">
    <meta name=";
"viewport";
" content=";
"width=device-width, initial-scale=1.0";
">
    <title>Member Roster | QRQ Crew Club</title>
    <link rel=";
"icon";
" type=";
"image/svg+xml";
" href=";
"favicon.svg";
">
    <link rel=";
"preconnect";
" href=";
"https://fonts.googleapis.com";
">
    <link rel=";
"preconnect";
" href=";
"https://fonts.gstatic.com";
" crossorigin>
    <link href=";
"https://fonts.googleapis.com/css2?family=Playfair+Display:wght@400;600;700&family=Source+Sans+Pro:wght@400;600;700&display=swap";
" rel=";
"stylesheet";
">
    <style>
        :root {
            --navy: #1B3A57;
            --navy-dark: #132A40;
            --slate-blue: #4A7C9B;
            --light-blue: #7BA3BE;
            --cream: #FDFBF7;
            --white: #FFFFFF;
            --text-dark: #2C3E50;
            --text-muted: #5D6D7E;
            --border-light: #D5DFE5;
            --gold: #C9A227;
            --tech-blue: #4A90A4;
        }

        * {
            margin: 0;
            padding: 0;
            box-sizing: border-box;
        }

        body {
            font-family: 'Source Sans Pro', Georgia, serif;
            background-color: var(--cream);
            color: var(--text-dark);
            line-height: 1.7;
            min-height: 100vh;
        }

        .container {
            max-width: 960px;
            margin: 0 auto;
            padding: 0 24px;
        }

        header {
            background: var(--white);
            border-bottom: 3px solid var(--navy);
            padding: 30px 0;
        }

        .header-content {
            display: flex;
            align-items: center;
            justify-content: space-between;
            margin-top: 16px;
        }

        .back-link {
            display: inline-flex;
            align-items: center;
            gap: 8px;
            color: var(--slate-blue);
            text-decoration: none;
            font-size: 0.9rem;
            transition: color 0.3s ease;
        }

        .back-link:hover {
            color: var(--navy);
        }

        h1 {
            font-family: 'Playfair Display', Georgia, serif;
            font-size: 2rem;
            font-weight: 600;
            color: var(--navy);
        }

        .member-count {
            font-size: 0.9rem;
            color: var(--text-muted);
        }

        main {
            padding: 40px 0 80px;
        }

        .roster-header {
            display: grid;
            grid-template-columns: 80px 120px 1fr 140px;
            gap: 16px;
            padding: 16px 20px;
            background: var(--navy);
            color: var(--white);
            font-size: 0.75rem;
            font-weight: 600;
            letter-spacing: 0.1em;
            text-transform: uppercase;
        }

        .roster-table {
            background: var(--white);
            border: 1px solid var(--border-light);
            border-top: none;
        }

        .member-row {
            display: grid;
            grid-template-columns: 80px 120px 1fr 140px;
            gap: 16px;
            padding: 16px 20px;
            border-bottom: 1px solid var(--border-light);
            align-items: center;
            transition: background 0.2s ease;
        }

        .member-row:hover {
            background: rgba(74, 124, 155, 0.05);
        }

        .member-row:last-child {
            border-bottom: none;
        }

        .member-row.founder {
            background: linear-gradient(90deg, rgba(201, 162, 39, 0.08) 0%, transparent 100%);
        }

        .member-row.tech-guy {
            background: linear-gradient(90deg, rgba(74, 144, 164, 0.08) 0%, transparent 100%);
        }

        .tech-guy .qc-number {
            color: var(--tech-blue);
        }

        .qc-number {
            font-family: 'Playfair Display', Georgia, serif;
            font-weight: 600;
            color: var(--slate-blue);
        }

        .founder .qc-number {
            color: var(--gold);
        }

        .callsign {
            font-weight: 600;
            color: var(--navy);
        }

        .callsign a {
            color: var(--navy);
            text-decoration: none;
            transition: color 0.2s ease;
        }

        .callsign a:hover {
            color: var(--slate-blue);
            text-decoration: underline;
        }

        .name {
            color: var(--text-dark);
        }

        .founder-badge {
            display: inline-block;
            font-size: 0.65rem;
            font-weight: 600;
            letter-spacing: 0.05em;
            text-transform: uppercase;
            color: var(--gold);
            background: rgba(201, 162, 39, 0.15);
            padding: 2px 8px;
            margin-left: 8px;
            vertical-align: middle;
        }

        .tech-badge {
            display: inline-block;
            font-size: 0.65rem;
            font-weight: 600;
            letter-spacing: 0.05em;
            text-transform: uppercase;
            color: var(--tech-blue);
            background: rgba(74, 144, 164, 0.15);
            padding: 2px 8px;
            margin-left: 8px;
            vertical-align: middle;
        }

        .join-date {
            color: var(--text-muted);
            font-size: 0.9rem;
        }

        .error {
            text-align: center;
            padding: 40px 20px;
            background: var(--white);
            border: 1px solid var(--border-light);
            color: var(--text-muted);
        }

        .error a {
            color: var(--slate-blue);
        }

        .roster-footer {
            margin-top: 40px;
            text-align: center;
            padding: 24px;
            background: var(--white);
            border: 1px solid var(--border-light);
        }

        .roster-footer p {
            color: var(--text-muted);
            font-size: 0.9rem;
            margin-bottom: 8px;
        }

        .roster-footer a {
            color: var(--slate-blue);
            text-decoration: none;
        }

        .roster-footer a:hover {
            text-decoration: underline;
        }

        .last-updated {
            font-size: 0.8rem;
            color: var(--text-muted);
            opacity: 0.7;
        }

        footer {
            background: var(--navy);
            color: var(--white);
            padding: 30px 0;
            text-align: center;
        }

        .footer-text {
            font-size: 0.85rem;
            opacity: 0.8;
        }

        .footer-text a {
            color: var(--light-blue);
            text-decoration: none;
        }

        .footer-text a:hover {
            text-decoration: underline;
        }

        @media (max-width: 700px) {
            .container {
                padding: 0 16px;
            }

            .roster-header {
                display: none;
            }

            .roster-table {
                border: none;
                background: transparent;
            }

            .member-row {
                display: block;
                background: var(--white);
                border: 1px solid var(--border-light);
                border-radius: 4px;
                padding: 16px;
                margin-bottom: 12px;
            }

            .member-row:hover {
                background: var(--white);
            }

            .member-row.founder {
                background: var(--white);
                border-left: 3px solid var(--gold);
            }

            .member-row.tech-guy {
                background: var(--white);
                border-left: 3px solid var(--tech-blue);
            }

            .tech-guy .qc-number {
                background: var(--tech-blue);
                color: var(--white);
            }

            .qc-number {
                display: inline-block;
                font-size: 0.8rem;
                background: var(--navy);
                color: var(--white);
                padding: 2px 10px;
                border-radius: 3px;
                margin-bottom: 8px;
            }

            .founder .qc-number {
                background: var(--gold);
                color: var(--white);
            }

            .callsign {
                display: block;
                font-size: 1.25rem;
                margin-bottom: 4px;
            }

            .name {
                display: block;
                font-size: 1rem;
                color: var(--text-dark);
                margin-bottom: 8px;
            }

            .founder-badge {
                display: inline-block;
                margin-left: 0;
                margin-top: 4px;
            }

            .join-date {
                display: block;
                font-size: 0.85rem;
                color: var(--text-muted);
            }

            .join-date::before {
                content: 'Joined ';
            }

            .header-content {
                flex-direction: column;
                align-items: flex-start;
                gap: 8px;
            }

            h1 {
                font-size: 1.5rem;
            }

            .roster-footer {
                margin-top: 20px;
            }
        }
    </style>
</head>
<body>
    <header>
        <div class=";
"container";
">
            <a href=";
"index.html";
" class=";
"back-link";
">&larr; Back to Home</a>
            <div class=";
"header-content";
">
                <h1>Member Roster</h1>
                <span class=";
"member-count";
">"
  ].

(** The page template from the member count to the member rows. *)
Definition page_before_rows : string :=
  join dq [
"</span>
            </div>
        </div>
    </header>

    <main>
        <div class=";
"container";
">
            <div class=";
"roster-header";
">
                <span>QC #</span>
                <span>Callsign</span>
                <span>Name</span>
                <span>Joined</span>
            </div>

            <div class=";
"roster-table";
">
"
  ].

(** The page template from the member rows to the time of the update. *)
Definition page_before_now : string :=
  join dq [
"
            </div>

            <div class=";
"roster-footer";
">
                <p>Want to join the crew? <a href=";
"index.html#membership";
">Learn how to become a member</a></p>
                <p class=";
"last-updated";
">Last updated: "
  ].

(** The end of the page template. *)
Definition page_after_now : string :=
  join dq [
"</p>
            </div>
        </div>
    </main>

    <footer>
        <div class=";
"container";
">
            <div class=";
"footer-morse";
">&minus;&middot;&minus;&middot; &minus;&minus;&middot;&minus; / &minus;&minus;&middot;&minus; &minus;&middot;&minus;&middot;</div>
            <p class=";
"footer-text";
">
                QRQ Crew Club &copy; 2025 &middot; <a href=";
"index.html";
">Home</a>
            </p>
        </div>
    </footer>
</body>
</html>
"
  ].

(** [generate_html(members)]; [now] is the formatted time of the call. *)
Definition generate_html (members : list member) (now : string) : string :=
  let count := Z.of_nat (List.length members) in
  let count_text :=
    str_of_int count ++ " Member" ++ (if count =? 1 then EmptyString else "s") in
  let member_rows := join nl (map render_member_row members) in
  page_before_count ++ count_text ++ page_before_rows ++ member_rows
  ++ page_before_now ++ now ++ page_after_now.

(** How the file system answers the run when it opens roster.html for
    writing and writes the page: both succeed; [open] raises and the file
    is not touched; or [open] succeeds, which empties the file, and the
    write or the closing of the file raises after [written] characters of
    the page have reached the file. *)
Inductive Disk :=
| WriteOk
| OpenFails (e : exn)
| WriteFails (e : exn) (written : nat).

(** What a run depends on and acts on: the outcome of [fetch_csv], the
    clock, the file roster.html of the working directory ([None]: no such
    file), how the file system answers a write, and the two output
    streams, a list of lines each. *)
Record World := {
  fetch_csv : result string;
  utc_now : string;
  roster_html : option string;
  disk : Disk;
  stdout : list string;
  stderr : list string
}.

Definition print (line : string) (w : World) : World :=
  {| fetch_csv := fetch_csv w; utc_now := utc_now w;
     roster_html := roster_html w; disk := disk w;
     stdout := (stdout w ++ [line])%list; stderr := stderr w |}.

Definition print_stderr (line : string) (w : World) : World :=
  {| fetch_csv := fetch_csv w; utc_now := utc_now w;
     roster_html := roster_html w; disk := disk w;
     stdout := stdout w; stderr := (stderr w ++ [line])%list |}.

Definition set_roster (file : option string) (w : World) : World :=
  {| fetch_csv := fetch_csv w; utc_now := utc_now w;
     roster_html := file; disk := disk w;
     stdout := stdout w; stderr := stderr w |}.

(** [with open("roster.html", "w") as f: f.write(html)] *)
Definition write_roster (html : string) (w : World) : result unit * World :=
  match disk w with
  | OpenFails e => (Raise e, w)
  | WriteFails e written =>
      (Raise e, set_roster (Some (String.substring 0 written html)) w)
  | WriteOk => (Ok tt, set_roster (Some html) w)
  end.

(** [main()]: what it returns or raises, and the world it leaves. *)
Definition main (w : World) : result Z * World :=
  let w := print "Fetching roster CSV..." w in
  match fetch_csv w with
  | Raise e =>
      (Ok 1, print_stderr ("ERROR: Failed to fetch CSV: " ++ exn_msg e) w)
  | Ok csv_text =>
      match parse_members csv_text with
      | Raise e => (Raise e, w)
      | Ok members =>
          match members with
          | [] => (Ok 1, print_stderr "ERROR: No members parsed from CSV" w)
          | _ =>
              let w :=
                print ("Parsed " ++ str_of_int (Z.of_nat (List.length members))
                       ++ " members") w in
              let html := generate_html members (utc_now w) in
              match write_roster html w with
              | (Raise e, w) => (Raise e, w)
              | (Ok _, w) => (Ok 0, print "Generated roster.html" w)
              end
          end
      end
  end.

End BuildRoster.

Import Csv BuildRoster.


(** ** Inputs used below *)

Definition header_line : string := "Callsign,Name,Join Date,QC #".
Definition w1aw_line : string := "W1AW,Hiram,1/1/1914,1".

Definition w1aw : member :=
  {| callsign := "W1AW"; name := "Hiram"; join_date := "1/1/1914";
     qc_number := 1 |}.

(** A roster whose second row has one field only. *)
Definition short_row_csv : string :=
  header_line ++ nl ++ w1aw_line ++ nl ++ "K1ABC" ++ nl.

Definition w1aw_row : dict :=
  [(Some "Callsign", Str "W1AW"); (Some "Name", Str "Hiram");
   (Some "Join Date", Str "1/1/1914"); (Some "QC #", Str "1")].
Definition short_row : dict :=
  [(Some "Callsign", Str "K1ABC"); (Some "Name", NoneV);
   (Some "Join Date", NoneV); (Some "QC #", NoneV)].

(** A roster whose rows are not in the order of their ranks. *)
Definition unsorted_csv : string :=
  "Callsign,QC #" ++ nl ++ "K1ABC,2" ++ nl ++ "W1AW,1" ++ nl.

Definition k1abc_2 : member :=
  {| callsign := "K1ABC"; name := EmptyString; join_date := EmptyString;
     qc_number := 2 |}.
Definition w1aw_1 : member :=
  {| callsign := "W1AW"; name := EmptyString; join_date := EmptyString;
     qc_number := 1 |}.

(** A roster with a rank below zero. *)
Definition negative_rank_csv : string :=
  "Callsign,QC #" ++ nl ++ "W6JSV,-5" ++ nl.

Definition w6jsv_minus_5 : member :=
  {| callsign := "W6JSV"; name := EmptyString; join_date := EmptyString;
     qc_number := -5 |}.

(** A run: the roster is fetched, there is no roster.html yet. *)
Definition example_world : World :=
  {| fetch_csv := Ok (header_line ++ nl ++ w1aw_line);
     utc_now := "November 04, 2026 at 12:00 UTC";
     roster_html := None; disk := WriteOk; stdout := []; stderr := [] |}.



(** Case-insensitive equality of two strings: the same length, and
    character by character the same letter whatever its case (A to Z, and
    the accented capitals U+00C0..U+00DE). *)
Definition fold_case (c : ascii) : ascii :=
  if in_range 65 90 c || (in_range 192 222 c && negb (code c =? 215)%N)
  then chr (code c + 32)
  else c.

Fixpoint caseless_eq (a b : string) : bool :=
  match a, b with
  | EmptyString, EmptyString => true
  | String x a', String y b' =>
      Ascii.eqb (fold_case x) (fold_case y) && caseless_eq a' b'
  | _, _ => false
  end.

(** ** Notions used in the statements *)

(** The order of the keys, and the elements of one key. *)
Definition key_le {A} (key : A -> Z) (a b : A) : Prop := key a <= key b.
Definition has_key {A} (key : A -> Z) (k : Z) (a : A) : bool := key a =? k.

(** The rows an iterator yields before it stops or fails. *)
Fixpoint yielded {A} (g : gen A) : list A :=
  match g with
  | Yield a rest => a :: yielded rest
  | _ => []
  end.

(** How an iterator ends: [None] for StopIteration. *)
Fixpoint gen_end {A} (g : gen A) : option exn :=
  match g with
  | Stop => None
  | Fail e => Some e
  | Yield _ rest => gen_end rest
  end.

(** [x] is the upper case of exactly the characters that are [x] up to
    case. *)
Definition plain (x : ascii) : Prop :=
  forall c, upper_chr c = [code x] <-> fold_case c = fold_case x.

(** A text without line boundary: one line for [str.splitlines]. *)
Fixpoint one_line (s : string) : bool :=
  match s with
  | EmptyString => true
  | String c s' => negb (is_linebreak c) && one_line s'
  end.

Definition no_token (line : string) : Prop := contains "Callsign" line = false.

(** What escaping does to one character. *)
Definition escape_char (c : ascii) : string :=
  if Ascii.eqb c "&" then "&amp;"
  else if Ascii.eqb c "<" then "&lt;"
  else if Ascii.eqb c ">" then "&gt;"
  else if Ascii.eqb c DQUOTE then "&quot;"
  else str1 c.

(** Escaping character by character, in one pass. *)
Fixpoint escape_each (s : string) : string :=
  match s with
  | EmptyString => EmptyString
  | String c s' => escape_char c ++ escape_each s'
  end.

(** [c in s] for a character. *)
Fixpoint has_char (c : ascii) (s : string) : bool :=
  match s with
  | EmptyString => false
  | String x s' => Ascii.eqb x c || has_char c s'
  end.

(** No "<" of [s] is followed by "sc". *)
Fixpoint no_lt_sc (s : string) : bool :=
  match s with
  | EmptyString => true
  | String c s' =>
      (if Ascii.eqb c "<" then negb (String.prefix "sc" s') else true)
      && no_lt_sc s'
  end.

(** Every "<" of [s] has two characters of [s] after it. *)
Fixpoint lt_inside (s : string) : bool :=
  match s with
  | EmptyString => true
  | String c s' =>
      (if Ascii.eqb c "<" then (2 <=? String.length s')%nat else true)
      && lt_inside s'
  end.

(** A piece of text that cannot take part in an occurrence of "<sc",
    whatever stands around it. *)
Definition harmless (s : string) : bool := lt_inside s && no_lt_sc s.

(** The characters [html_escape] rewrites. *)
Definition needs_escape (c : ascii) : bool :=
  Ascii.eqb c "&" || Ascii.eqb c "<" || Ascii.eqb c ">" || Ascii.eqb c DQUOTE.

Fixpoint any_needs_escape (s : string) : bool :=
  match s with
  | EmptyString => false
  | String c s' => needs_escape c || any_needs_escape s'
  end.

(** [s.count(c)] for a character. *)
Fixpoint count_char (c : ascii) (s : string) : nat :=
  match s with
  | EmptyString => O
  | String x s' => ((if Ascii.eqb x c then 1 else 0) + count_char c s')%nat
  end.

(** The world [w] with another roster.html. *)
Definition with_roster (file : option string) (w : World) : World :=
  set_roster file w.

(** A roster whose header names no column "Callsign". *)
Definition no_callsign_column_csv : string :=
  "My Callsign,QC #" ++ nl ++ "W1AW,1" ++ nl.

(** The records [csv.reader] gives from the header line on: the first
    one names the columns. *)
Definition records (csv_text : string) (header_idx : nat) : gen (list string) :=
  reader (StringIO (join nl (skipn header_idx (splitlines csv_text)))).

(** Every column a row dictionary has holds a string. *)
Definition str_valued (d : dict) : Prop :=
  forall k default, exists s, get d k (Str default) = Str s.

(** The characters that open or close a tag or an attribute value. *)
Definition markup_char (c : ascii) : Prop :=
  c = "<"%char \/ c = ">"%char \/ c = DQUOTE.

(** A run without network: the fetch raises. *)
Definition offline_world : World :=
  {| fetch_csv := Raise (Exn URLError "<urlopen error timed out>");
     utc_now := "November 04, 2026 at 12:00 UTC";
     roster_html := Some "old page"; disk := WriteOk;
     stdout := []; stderr := [] |}.

(** A text without carriage return and line feed. *)
Fixpoint no_crlf (s : string) : bool :=
  match s with
  | EmptyString => true
  | String c s' => negb (is_crlf c) && no_crlf s'
  end.

(** A line as [io.StringIO] gives it when the text has no carriage
    return: no line end inside, at most a line feed at the end. *)
Definition clean_line (line : string) : Prop :=
  exists body, no_crlf body = true /\ (line = body \/ line = body ++ nl).

(** Every column a row dictionary has holds a string or [None]. *)
Definition str_or_none (d : dict) : Prop :=
  forall k default,
    (exists s, get d k (Str default) = Str s) \/ get d k (Str default) = NoneV.

(** How reading records can end: without exception, or with the error of
    the field limit. *)
Definition reader_error (e : option exn) : Prop :=
  e = None \/ e = Some field_too_large.

(** The number of characters of some lines, and of the lines with a
    separator after each. *)
Fixpoint total_length (lines : list string) : nat :=
  match lines with
  | [] => O
  | line :: rest => (String.length line + total_length rest)%nat
  end.

Fixpoint separated_length (lines : list string) : nat :=
  match lines with
  | [] => O
  | line :: rest => (String.length line + 1 + separated_length rest)%nat
  end.

(** * Properties *)

(** ** Strings *)

Lemma append_nil_r (s : string) : s ++ EmptyString = s.
Proof. induction s as [|c s IH]; simpl; [reflexivity | now rewrite IH]. Qed.

Lemma append_assoc (a b c : string) : (a ++ b) ++ c = a ++ (b ++ c).
Proof. induction a as [|x a IH]; simpl; [reflexivity | now rewrite IH]. Qed.

(** ** The date formatter *)

(** C8: the date formatter maps "3/4/2024" to "Mar 4, 2024" and leaves
    "2024", which has no slash, as it is. *)
Theorem format_date_examples :
  format_date "3/4/2024" = "Mar 4, 2024" /\ format_date "2024" = "2024".
Proof. split; vm_compute; reflexivity. Qed.

(** The third part of a date is not read as a number: a year that is no
    integer is copied into the result. *)
Lemma format_date_year_not_parsed :
  split "/" "3/4/abc" = ["3"; "4"; "abc"]
  /\ int "abc" = None
  /\ format_date "3/4/abc" = "Mar 4, abc"
  /\ format_date "3/4/abc" <> "3/4/abc".
Proof. repeat split; try (vm_compute; reflexivity). vm_compute. discriminate. Qed.

(** C5, as the code has it: a string that splits on "/" into three parts
    whose first two parse as integers, the first in 1..12, becomes the
    month's name, the day in decimal and the third part as it stands; every
    other string is returned unchanged, also when the month or the day
    does not parse. *)
Theorem format_date_cases (date_str : string) :
  (forall a b c m d,
      split "/" date_str = [a; b; c] ->
      int a = Some m -> int b = Some d -> 1 <= m <= 12 ->
      format_date date_str =
        nth (Z.to_nat (m - 1)) MONTHS EmptyString
        ++ " " ++ str_of_int d ++ ", " ++ c)
  /\ (List.length (split "/" date_str) <> 3%nat -> format_date date_str = date_str)
  /\ (forall a b c,
      split "/" date_str = [a; b; c] ->
      int a = None \/ int b = None
      \/ (exists m, int a = Some m /\ (m < 1 \/ 12 < m)) ->
      format_date date_str = date_str).
Proof.
  unfold format_date. repeat split.
  - intros a b c m d Hs Ha Hb Hm. rewrite Hs, Ha, Hb.
    replace ((0 <=? m - 1) && (m - 1 <? 12)) with true; [reflexivity|].
    symmetry. apply andb_true_iff. split; [apply Z.leb_le | apply Z.ltb_lt]; lia.
  - intros Hlen. destruct (split "/" date_str) as [|a [|b [|c [|x l]]]];
      try reflexivity. now elim Hlen.
  - intros a b c Hs H. rewrite Hs.
    destruct H as [Ha | [Hb | [m [Ha Hm]]]].
    + now rewrite Ha.
    + rewrite Hb. now destruct (int a).
    + rewrite Ha. destruct (int b); [|reflexivity].
      replace ((0 <=? m - 1) && (m - 1 <? 12)) with false; [reflexivity|].
      symmetry. apply andb_false_iff.
      destruct Hm; [left; apply Z.leb_gt | right; apply Z.ltb_ge]; lia.
Qed.

Lemma format_date_cases_witness :
  format_date "3/4/2024" = "Mar" ++ " " ++ str_of_int 4 ++ ", " ++ "2024".
Proof.
  apply (proj1 (format_date_cases "3/4/2024") "3" "4" "2024" 3 4);
    try (vm_compute; reflexivity).
  lia.
Defined.

(** ** Sorting *)

Section SortBy.
Context {A : Type} (key : A -> Z).

Lemma insert_by_perm (x : A) (l : list A) :
  Permutation (x :: l) (insert_by key x l).
Proof.
  induction l as [|y l IH]; simpl; [reflexivity|].
  destruct (key x <=? key y); [reflexivity|].
  rewrite perm_swap. now constructor.
Qed.

Lemma sort_by_perm (l : list A) : Permutation l (sort_by key l).
Proof.
  induction l as [|x l IH]; simpl; [constructor|].
  rewrite <- insert_by_perm. now constructor.
Qed.

Lemma insert_by_hdrel (a x : A) (l : list A) :
  (key_le key) a x -> HdRel (key_le key) a l -> HdRel (key_le key) a (insert_by key x l).
Proof.
  intros Hax Hl. destruct l as [|y l]; simpl; [now constructor|].
  destruct (key x <=? key y); constructor; [assumption|].
  now inversion Hl.
Qed.

Lemma insert_by_sorted (x : A) (l : list A) :
  Sorted (key_le key) l -> Sorted (key_le key) (insert_by key x l).
Proof.
  induction l as [|y l IH]; simpl; intros Hs.
  - repeat constructor.
  - destruct (key x <=? key y) eqn:E.
    + constructor; [assumption|]. constructor. now apply Z.leb_le.
    + inversion Hs as [|? ? Hl Hhd]; subst. constructor; [now apply IH|].
      apply insert_by_hdrel; [|assumption].
      apply Z.leb_gt in E. unfold key_le. lia.
Qed.

Lemma sort_by_sorted (l : list A) : Sorted (key_le key) (sort_by key l).
Proof.
  induction l as [|x l IH]; simpl; [constructor | now apply insert_by_sorted].
Qed.

Lemma key_le_trans : Relations_1.Transitive (key_le key).
Proof. intros a b c. unfold key_le. lia. Qed.

Lemma sort_by_strongly_sorted (l : list A) :
  StronglySorted (key_le key) (sort_by key l).
Proof. apply Sorted_StronglySorted; [exact key_le_trans | apply sort_by_sorted]. Qed.

(** Inserting [x] passes only elements of a smaller key: among the
    elements of one key the order is kept. *)
Lemma insert_by_stable (k : Z) (x : A) (l : list A) :
  filter (has_key key k) (insert_by key x l) = filter (has_key key k) (x :: l).
Proof.
  induction l as [|y l IH]; [reflexivity|].
  cbn [insert_by]. destruct (key x <=? key y) eqn:E; [reflexivity|].
  cbn [filter] in *. rewrite IH. unfold has_key.
  destruct (key x =? k) eqn:Ex; [|reflexivity].
  destruct (key y =? k) eqn:Ey; [|reflexivity].
  apply Z.eqb_eq in Ex, Ey. apply Z.leb_gt in E. lia.
Qed.

Lemma sort_by_stable (k : Z) (l : list A) :
  filter (has_key key k) (sort_by key l) = filter (has_key key k) l.
Proof.
  induction l as [|x l IH]; [reflexivity|].
  cbn [sort_by]. rewrite insert_by_stable. cbn [filter]. now rewrite IH.
Qed.

Lemma insert_by_hd (x : A) (l : list A) :
  HdRel (key_le key) x l -> insert_by key x l = x :: l.
Proof.
  destruct l as [|y l]; [reflexivity|]. intros H. inversion H as [|? ? Hxy]; subst.
  simpl. apply Z.leb_le in Hxy. now rewrite Hxy.
Qed.

(** Sorting changes nothing exactly on the lists that are in order. *)
Lemma sort_by_fixpoint (l : list A) :
  sort_by key l = l <-> Sorted (key_le key) l.
Proof.
  split.
  - intros <-. apply sort_by_sorted.
  - induction 1 as [|x l Hs IH Hhd]; [reflexivity|].
    simpl. rewrite IH. now apply insert_by_hd.
Qed.
End SortBy.

(** ** Parsing: the loop over the rows *)

Lemma row_body_ok (row : dict) (members out : list member) :
  row_body row members = Ok out ->
  exists m, row_fields row = Ok m
            /\ out = (members ++ filter is_valid [m])%list.
Proof.
  unfold row_body. destruct (row_fields row) as [m|e]; simpl; [|discriminate].
  intros H. exists m. split; [reflexivity|].
  destruct (is_valid m); inversion H; subst; [reflexivity|].
  now rewrite app_nil_r.
Qed.

(** When the loop completes, the iterator stopped without an exception,
    every row had its four fields, and the list holds the valid ones, in
    the order of the rows. *)
Lemma for_rows_ok (g : gen dict) (members out : list member) :
  for_rows g members = Ok out ->
  gen_end g = None
  /\ exists all, Forall2 (fun row m => row_fields row = Ok m) (yielded g) all
                 /\ out = (members ++ filter is_valid all)%list.
Proof.
  revert members. induction g as [|row rest IH|e]; simpl; intros members H.
  - inversion H; subst. split; [reflexivity|]. exists []. split; [constructor|].
    now rewrite app_nil_r.
  - destruct (row_body row members) as [members'|e] eqn:E; simpl in H; [|discriminate].
    apply row_body_ok in E. destruct E as [m [Hm ->]].
    apply IH in H. destruct H as [Hend [all [Hall ->]]].
    split; [assumption|]. exists (m :: all). split; [now constructor|].
    rewrite <- app_assoc. simpl. now destruct (is_valid m).
  - discriminate.
Qed.

(** The converse: on rows that all have their fields, the loop completes. *)
Lemma for_rows_complete (g : gen dict) (members all : list member) :
  gen_end g = None ->
  Forall2 (fun row m => row_fields row = Ok m) (yielded g) all ->
  for_rows g members = Ok (members ++ filter is_valid all)%list.
Proof.
  revert members all. induction g as [|row rest IH|e]; simpl; intros members all He Hall.
  - inversion Hall; subst. now rewrite app_nil_r.
  - inversion Hall as [|? m ? all' Hm Hrest]; subst.
    unfold row_body. rewrite Hm. simpl.
    destruct (is_valid m); simpl.
    + rewrite (IH _ all' He Hrest). now rewrite <- app_assoc.
    + now apply IH.
  - discriminate.
Qed.

Lemma parse_members_sorts (csv_text : string) :
  parse_members csv_text =
  (members <- members_before_sort csv_text ;; Ok (sort_by qc_number members)).
Proof.
  unfold parse_members, members_before_sort.
  now destruct (find_header 0 (splitlines csv_text)).
Qed.

(** The list the loop leaves holds the valid rows in the order of the
    rows of the file. *)
Lemma members_before_sort_file_order (csv_text : string) (i : nat)
    (recs : list member) :
  find_header 0 (splitlines csv_text) = Some i ->
  members_before_sort csv_text = Ok recs ->
  exists all,
    Forall2 (fun row m => row_fields row = Ok m)
            (yielded (data_rows (splitlines csv_text) i)) all
    /\ recs = filter is_valid all.
Proof.
  unfold members_before_sort. intros -> H.
  apply for_rows_ok in H. destruct H as [_ [all [Hall ->]]]. now exists all.
Qed.

Lemma members_before_sort_valid (csv_text : string) (recs : list member) :
  members_before_sort csv_text = Ok recs ->
  Forall (fun m => is_valid m = true) recs.
Proof.
  unfold members_before_sort.
  destruct (find_header 0 (splitlines csv_text)) as [i|].
  - intros H. apply for_rows_ok in H. destruct H as [_ [all [_ ->]]].
    apply Forall_forall. intros m Hm. now apply filter_In in Hm.
  - intros H. inversion H. constructor.
Qed.

Lemma is_valid_spec (m : member) :
  is_valid m = true <-> callsign m <> EmptyString /\ qc_number m <> 0.
Proof.
  unfold is_valid. rewrite andb_true_iff, !negb_true_iff.
  rewrite <- not_true_iff_false, String.eqb_eq, Z.eqb_neq. reflexivity.
Qed.

(** Every record [parse_members] returns has a callsign and a rank that
    is not zero. *)
Lemma parse_members_valid (csv_text : string) (members : list member) :
  parse_members csv_text = Ok members ->
  Forall (fun m => callsign m <> EmptyString /\ qc_number m <> 0) members.
Proof.
  rewrite parse_members_sorts.
  destruct (members_before_sort csv_text) as [recs|e] eqn:E; simpl; [|discriminate].
  intros H. inversion H; subst. apply members_before_sort_valid in E.
  apply Forall_forall. intros m Hm. apply is_valid_spec.
  rewrite Forall_forall in E. apply E.
  eapply Permutation_in; [symmetry; apply sort_by_perm | exact Hm].
Qed.

(** A rank field that is no integer makes the rank zero, and the row is
    left out. *)
Lemma row_fields_bad_rank (row : dict) (m : member) (qc_text : string) :
  row_fields row = Ok m ->
  value_strip (get row "QC #" (Str "0")) = Ok qc_text ->
  int qc_text = None ->
  qc_number m = 0 /\ is_valid m = false.
Proof.
  unfold row_fields. intros H Hq Hint.
  destruct (value_strip (get row "Callsign" _)); simpl in H; [|discriminate].
  destruct (value_strip (get row "Name" _)); simpl in H; [|discriminate].
  destruct (value_strip (get row "Join Date" _)); simpl in H; [|discriminate].
  rewrite Hq in H. simpl in H. rewrite Hint in H. inversion H; subst.
  unfold is_valid. simpl. split; [reflexivity | apply andb_false_r].
Qed.

(** C1 at a roster with a short row: the first row has a callsign and the
    rank 1, the second row has no rank field at all, and [parse_members]
    returns no records but raises AttributeError. *)
Theorem parse_members_short_row :
  yielded (data_rows (splitlines short_row_csv) 0) = [w1aw_row; short_row]
  /\ row_fields w1aw_row = Ok w1aw /\ is_valid w1aw = true
  /\ get short_row "QC #" (Str "0") = NoneV
  /\ parse_members short_row_csv = Raise (no_strip "NoneType").
Proof.
  split; [vm_compute; reflexivity|]. split; [vm_compute; reflexivity|].
  split; [vm_compute; reflexivity|]. split; vm_compute; reflexivity.
Qed.

(** C2: the records are sorted by ascending rank where they are parsed,
    records of one rank keep the order they had, and the page renders the
    records one by one in the order it is given them. *)
Theorem rendered_order_sorted_stable :
  (forall csv_text,
      parse_members csv_text =
      (members <- members_before_sort csv_text ;;
       Ok (sort_by qc_number members)))
  /\ (forall members,
      StronglySorted (fun a b => qc_number a <= qc_number b)
                     (sort_by qc_number members)
      /\ Permutation members (sort_by qc_number members)
      /\ forall k,
          filter (fun m => qc_number m =? k) (sort_by qc_number members)
          = filter (fun m => qc_number m =? k) members)
  /\ (forall members now,
      generate_html members now =
      page_before_count
      ++ str_of_int (Z.of_nat (List.length members)) ++ " Member"
      ++ (if Z.of_nat (List.length members) =? 1 then EmptyString else "s")
      ++ page_before_rows ++ join nl (map render_member_row members)
      ++ page_before_now ++ now ++ page_after_now).
Proof.
  split; [exact parse_members_sorts|]. split.
  - intros members. split; [apply sort_by_strongly_sorted|].
    split; [apply sort_by_perm|]. intros k. apply (sort_by_stable qc_number k).
  - intros members now. unfold generate_html. cbv zeta.
    now rewrite !append_assoc.
Qed.

(** The output of [parse_members] is not in file order. *)
Lemma parse_members_not_file_order :
  members_before_sort unsorted_csv = Ok [k1abc_2; w1aw_1]
  /\ parse_members unsorted_csv = Ok [w1aw_1; k1abc_2]
  /\ parse_members unsorted_csv <> members_before_sort unsorted_csv.
Proof.
  assert (H1 : members_before_sort unsorted_csv = Ok [k1abc_2; w1aw_1])
    by (vm_compute; reflexivity).
  assert (H2 : parse_members unsorted_csv = Ok [w1aw_1; k1abc_2])
    by (vm_compute; reflexivity).
  repeat split; try assumption. rewrite H1, H2. discriminate.
Qed.

(** C9, as the code has it: [parse_members] returns the valid records of
    the file sorted by ascending rank.  The valid rows are collected in file
    order, then sorted: records of one rank stay in file order, and the
    whole output is in file order exactly when the ranks of the file never
    decrease. *)
Theorem parse_members_sorted_file_order (csv_text : string)
    (recs : list member) :
  members_before_sort csv_text = Ok recs ->
  (forall i, find_header 0 (splitlines csv_text) = Some i ->
     exists all,
       Forall2 (fun row m => row_fields row = Ok m)
               (yielded (data_rows (splitlines csv_text) i)) all
       /\ recs = filter is_valid all)
  /\ parse_members csv_text = Ok (sort_by qc_number recs)
  /\ Permutation recs (sort_by qc_number recs)
  /\ StronglySorted (fun a b => qc_number a <= qc_number b)
                    (sort_by qc_number recs)
  /\ (forall k,
       filter (fun m => qc_number m =? k) (sort_by qc_number recs)
       = filter (fun m => qc_number m =? k) recs)
  /\ (sort_by qc_number recs = recs
      <-> Sorted (fun a b => qc_number a <= qc_number b) recs).
Proof.
  intros H. split.
  { intros i Hi. now apply members_before_sort_file_order. }
  split; [rewrite parse_members_sorts, H; reflexivity|].
  split; [apply sort_by_perm|].
  split; [apply sort_by_strongly_sorted|].
  split; [intros k; apply (sort_by_stable qc_number k)|].
  apply sort_by_fixpoint.
Qed.

Lemma parse_members_sorted_file_order_witness :
  parse_members unsorted_csv = Ok (sort_by qc_number [k1abc_2; w1aw_1]).
Proof.
  apply (parse_members_sorted_file_order unsorted_csv [k1abc_2; w1aw_1]).
  vm_compute. reflexivity.
Defined.

(** ** Classification *)

Ltac each_char c := destruct c as [[] [] [] [] [] [] [] []].

Lemma row_class_badge_founder (m : member) :
  qc_number m <= 3 -> row_class_badge m = ("founder", founder_badge).
Proof.
  intros H. unfold row_class_badge. apply Z.leb_le in H. now rewrite H.
Qed.

Lemma row_class_badge_later (m : member) :
  3 < qc_number m ->
  row_class_badge m =
  if list_eq_dec N.eq_dec (upper (callsign m)) (codepoints "W6JSV")
  then ("tech-guy", tech_badge) else (EmptyString, EmptyString).
Proof.
  intros H. unfold row_class_badge. apply Z.leb_gt in H. now rewrite H.
Qed.

(** The upper case of a character is one code point, or SS. *)
Lemma upper_chr_shape (c : ascii) :
  upper_chr c = [83%N; 83%N] \/ exists n, upper_chr c = [n].
Proof. each_char c; vm_compute; solve [now left | right; eexists; reflexivity]. Qed.

Ltac plain_char :=
  intros c; each_char c; vm_compute;
  split; intros H; first [reflexivity | discriminate H].

Lemma plain_W : plain "W". Proof. plain_char. Qed.
Lemma plain_6 : plain "6". Proof. plain_char. Qed.
Lemma plain_J : plain "J". Proof. plain_char. Qed.
Lemma plain_S : plain "S". Proof. plain_char. Qed.
Lemma plain_V : plain "V". Proof. plain_char. Qed.

Lemma upper_cons_eq (c x : ascii) (s : string) (t : list N) :
  plain x ->
  code x <> 83%N \/ hd 0%N t <> 83%N ->
  upper (String c s) = code x :: t
  <-> fold_case c = fold_case x /\ upper s = t.
Proof.
  intros Hx Hss. cbn [upper]. specialize (Hx c).
  destruct (upper_chr_shape c) as [E | [n E]]; rewrite E in *; cbn [app].
  - split.
    + intros H. inversion H as [[H1 H2]]. subst t. cbn in Hss.
      destruct Hss as [Hss | Hss]; now elim Hss.
    + intros [H _]. apply Hx in H. discriminate H.
  - split.
    + intros H. inversion H; subst. split; [|reflexivity]. now apply Hx.
    + intros [H1 H2]. apply Hx in H1. inversion H1; subst. reflexivity.
Qed.

Lemma upper_nil (s : string) : upper s = [] <-> s = EmptyString.
Proof.
  destruct s as [|c s]; [easy|]. cbn [upper].
  destruct (upper_chr_shape c) as [E | [n E]]; rewrite E; easy.
Qed.

(** The test of the script, [callsign.upper() == "W6JSV"], is equality up
    to case. *)
Lemma upper_W6JSV (s : string) :
  upper s = codepoints "W6JSV" <-> caseless_eq s "W6JSV" = true.
Proof.
  assert (Hb : forall a b : ascii,
             fold_case a = fold_case b <-> Ascii.eqb (fold_case a) (fold_case b) = true)
    by (intros; symmetry; apply Ascii.eqb_eq).
  destruct s as [|c1 s]; [easy|].
  cbn [caseless_eq codepoints]. rewrite andb_true_iff, <- Hb.
  rewrite (upper_cons_eq c1 "W"); [|exact plain_W | now left].
  apply and_iff_compat_l.
  destruct s as [|c2 s]; [easy|].
  cbn [caseless_eq]. rewrite andb_true_iff, <- Hb.
  rewrite (upper_cons_eq c2 "6"); [|exact plain_6 | now left].
  apply and_iff_compat_l.
  destruct s as [|c3 s]; [easy|].
  cbn [caseless_eq]. rewrite andb_true_iff, <- Hb.
  rewrite (upper_cons_eq c3 "J"); [|exact plain_J | now left].
  apply and_iff_compat_l.
  destruct s as [|c4 s]; [easy|].
  cbn [caseless_eq]. rewrite andb_true_iff, <- Hb.
  rewrite (upper_cons_eq c4 "S"); [|exact plain_S | now right].
  apply and_iff_compat_l.
  destruct s as [|c5 s]; [easy|].
  cbn [caseless_eq]. rewrite andb_true_iff, <- Hb.
  rewrite (upper_cons_eq c5 "V"); [|exact plain_V | now left].
  apply and_iff_compat_l.
  rewrite upper_nil. destruct s; easy.
Qed.

Lemma render_member_row_eq (m : member) :
  render_member_row m =
  row_text_0 ++ fst (row_class_badge m) ++ row_text_1
  ++ str_of_int (qc_number m) ++ row_text_2
  ++ html_escape (callsign m) ++ row_text_3
  ++ html_escape (callsign m) ++ row_text_4
  ++ html_escape (name m) ++ row_text_5 ++ snd (row_class_badge m)
  ++ row_text_6 ++ html_escape (format_date (join_date m)) ++ row_text_7.
Proof. unfold render_member_row. now destruct (row_class_badge m). Qed.

(** C3: the first rule that applies decides.  A rank of at most 3 makes a
    founder, whatever the callsign; above 3, a callsign equal to W6JSV up
    to case makes the special role; every other member has no class and no
    badge.  The row shows the class and the badge so decided. *)
Theorem classification_first_match (m : member) :
  (qc_number m <= 3 -> row_class_badge m = ("founder", founder_badge))
  /\ (3 < qc_number m -> caseless_eq (callsign m) "W6JSV" = true ->
      row_class_badge m = ("tech-guy", tech_badge))
  /\ (3 < qc_number m -> caseless_eq (callsign m) "W6JSV" = false ->
      row_class_badge m = (EmptyString, EmptyString))
  /\ (caseless_eq (callsign m) "W6JSV" = true
      <-> upper (callsign m) = codepoints "W6JSV")
  /\ render_member_row m =
     row_text_0 ++ fst (row_class_badge m) ++ row_text_1
     ++ str_of_int (qc_number m) ++ row_text_2
     ++ html_escape (callsign m) ++ row_text_3
     ++ html_escape (callsign m) ++ row_text_4
     ++ html_escape (name m) ++ row_text_5 ++ snd (row_class_badge m)
     ++ row_text_6 ++ html_escape (format_date (join_date m)) ++ row_text_7.
Proof.
  split; [apply row_class_badge_founder|].
  split; [|split; [|split; [symmetry; apply upper_W6JSV | apply render_member_row_eq]]].
  - intros Hq Hc. rewrite row_class_badge_later by assumption.
    apply upper_W6JSV in Hc.
    now destruct (list_eq_dec N.eq_dec (upper (callsign m)) (codepoints "W6JSV")).
  - intros Hq Hc. rewrite row_class_badge_later by assumption.
    destruct (list_eq_dec N.eq_dec (upper (callsign m)) (codepoints "W6JSV")) as [E|E];
      [|reflexivity].
    apply upper_W6JSV in E. congruence.
Qed.

Lemma classification_first_match_witness :
  row_class_badge {| callsign := "w6jsv"; name := "Jay"; join_date := "3/4/2024";
                     qc_number := 7 |} = ("tech-guy", tech_badge).
Proof.
  apply (proj1 (proj2 (classification_first_match
           {| callsign := "w6jsv"; name := "Jay"; join_date := "3/4/2024";
              qc_number := 7 |}))).
  - simpl. lia.
  - vm_compute. reflexivity.
Defined.

(** C10: only the rank zero is refused.  A roster with the rank -5 is
    parsed to a record of that rank, and every record of a rank of at most
    3, so every negative one, is rendered as a founder. *)
Theorem negative_rank_founder :
  (exists csv_text members m,
      parse_members csv_text = Ok members /\ In m members /\ qc_number m < 0)
  /\ (forall m, qc_number m <= 3 ->
        row_class_badge m = ("founder", founder_badge)
        /\ render_member_row m =
           row_text_0 ++ "founder" ++ row_text_1
           ++ str_of_int (qc_number m) ++ row_text_2
           ++ html_escape (callsign m) ++ row_text_3
           ++ html_escape (callsign m) ++ row_text_4
           ++ html_escape (name m) ++ row_text_5 ++ founder_badge
           ++ row_text_6 ++ html_escape (format_date (join_date m))
           ++ row_text_7).
Proof.
  split.
  - exists negative_rank_csv, [w6jsv_minus_5], w6jsv_minus_5.
    split; [vm_compute; reflexivity|]. split; [now left | simpl; lia].
  - intros m H. apply row_class_badge_founder in H. split; [assumption|].
    rewrite render_member_row_eq, H. reflexivity.
Qed.

Lemma negative_rank_founder_witness :
  row_class_badge w6jsv_minus_5 = ("founder", founder_badge).
Proof.
  apply (proj2 negative_rank_founder w6jsv_minus_5). simpl. lia.
Defined.

(** ** The header row *)

Lemma find_header_none (k : nat) (lines : list string) :
  find_header k lines = None <-> Forall no_token lines.
Proof.
  revert k. induction lines as [|line rest IH]; intros k; simpl.
  - split; [constructor | reflexivity].
  - destruct (contains "Callsign" line) eqn:E.
    + split; [discriminate|]. intros H. inversion H; subst.
      unfold no_token in *. congruence.
    + rewrite IH. split; [now constructor | now inversion 1].
Qed.

(** The search stops at the first line that contains the token. *)
Lemma find_header_first (k : nat) (pre post : list string) (line : string) :
  Forall no_token pre -> contains "Callsign" line = true ->
  find_header k (pre ++ line :: post) = Some (k + List.length pre)%nat.
Proof.
  revert k. induction pre as [|l pre IH]; intros k Hpre Hline; simpl.
  - rewrite Hline. f_equal. lia.
  - inversion Hpre as [|? ? Hl Hrest]; subst. unfold no_token in Hl. rewrite Hl.
    rewrite IH by assumption. f_equal. lia.
Qed.

Lemma skipn_length_app {A} (pre l : list A) : skipn (List.length pre) (pre ++ l) = l.
Proof. induction pre; simpl; auto. Qed.

Lemma splitlines_from_line (line l rest : string) :
  one_line l = true ->
  splitlines_from line (l ++ String LF rest)
  = (line ++ l) :: splitlines_from EmptyString rest.
Proof.
  revert line. induction l as [|c l IH]; intros line H.
  - rewrite append_nil_r. cbn. now destruct rest.
  - cbn [one_line] in H. apply andb_true_iff in H. destruct H as [Hc Hl].
    apply negb_true_iff in Hc. cbn [append splitlines_from]. rewrite Hc.
    rewrite IH by assumption. now rewrite append_assoc.
Qed.

(** C7: the first line that contains "Callsign" is the header row, and
    the rows are read from that line on; a text none of whose lines
    contains it gives the empty result.  So two lines without the token,
    the header line and the row of W1AW give one record, of rank 1. *)
Theorem header_row_search :
  (forall csv_text,
      Forall no_token (splitlines csv_text) -> parse_members csv_text = Ok [])
  /\ (forall csv_text pre line post,
      splitlines csv_text = (pre ++ line :: post)%list ->
      Forall no_token pre -> contains "Callsign" line = true ->
      find_header 0 (splitlines csv_text) = Some (List.length pre)
      /\ parse_members csv_text =
         (members <- for_rows (DictReader (StringIO (join nl (line :: post)))) [] ;;
          Ok (sort_by qc_number members)))
  /\ (forall line1 line2,
      one_line line1 = true -> one_line line2 = true ->
      no_token line1 -> no_token line2 ->
      parse_members
        (line1 ++ nl ++ line2 ++ nl ++ header_line ++ nl ++ w1aw_line)
      = Ok [w1aw]
      /\ qc_number w1aw = 1).
Proof.
  assert (Hsecond : forall csv_text pre line post,
      splitlines csv_text = (pre ++ line :: post)%list ->
      Forall no_token pre -> contains "Callsign" line = true ->
      find_header 0 (splitlines csv_text) = Some (List.length pre)
      /\ parse_members csv_text =
         (members <- for_rows (DictReader (StringIO (join nl (line :: post)))) [] ;;
          Ok (sort_by qc_number members))).
  { intros csv_text pre line post Hs Hpre Hline.
    assert (Hf : find_header 0 (splitlines csv_text) = Some (List.length pre))
      by (rewrite Hs; now apply (find_header_first 0)).
    split; [assumption|].
    unfold parse_members. rewrite Hf. unfold data_rows.
    now rewrite Hs, skipn_length_app. }
  split; [|split; [exact Hsecond|]].
  - intros csv_text H. unfold parse_members.
    apply (find_header_none 0) in H. now rewrite H.
  - intros line1 line2 H1 H2 N1 N2. split; [|reflexivity].
    assert (Hs : splitlines
                   (line1 ++ nl ++ line2 ++ nl ++ header_line ++ nl ++ w1aw_line)
                 = ([line1; line2] ++ header_line :: [w1aw_line])%list).
    { unfold splitlines. change (nl ++ ?x) with (String LF x).
      rewrite splitlines_from_line by assumption.
      change (nl ++ ?x) with (String LF x).
      rewrite splitlines_from_line by assumption.
      cbn [append]. f_equal. f_equal. vm_compute. reflexivity. }
    destruct (Hsecond _ _ _ _ Hs) as [_ ->];
      [repeat constructor; assumption | vm_compute; reflexivity|].
    vm_compute. reflexivity.
Qed.

Lemma header_row_search_witness :
  parse_members
    ("QRQ Crew Roster" ++ nl ++ "Members" ++ nl ++ header_line ++ nl ++ w1aw_line)
  = Ok [w1aw].
Proof.
  apply (proj2 (proj2 header_row_search) "QRQ Crew Roster" "Members");
    vm_compute; reflexivity.
Defined.

(** ** The run *)




Lemma main_writes (w : World) (csv_text : string) (members : list member) :
  fetch_csv w = Ok csv_text -> parse_members csv_text = Ok members ->
  members <> [] -> disk w = WriteOk ->
  fst (main w) = Ok 0
  /\ roster_html (snd (main w)) = Some (generate_html members (utc_now w)).
Proof.
  intros H P Hne D. unfold main, write_roster. cbn [print fetch_csv disk].
  rewrite H, P, D. destruct members as [|m ms]; [now elim Hne|]. split; reflexivity.
Qed.







(** ** Escaping *)

Lemma replace_app (old : ascii) (new a b : string) :
  replace old new (a ++ b) = replace old new a ++ replace old new b.
Proof.
  induction a as [|c a IH]; simpl; [reflexivity|].
  rewrite IH. destruct (Ascii.eqb c old); [now rewrite append_assoc | reflexivity].
Qed.

Lemma html_escape_app (a b : string) :
  html_escape (a ++ b) = html_escape a ++ html_escape b.
Proof. unfold html_escape. now rewrite !replace_app. Qed.

Lemma html_escape_char (c : ascii) : html_escape (str1 c) = escape_char c.
Proof. each_char c; vm_compute; reflexivity. Qed.

(** The four replacements in a row escape each character once: no later
    replacement touches what an earlier one wrote. *)
Lemma html_escape_each (s : string) : html_escape s = escape_each s.
Proof.
  induction s as [|c s IH]; [reflexivity|].
  change (String c s) with (str1 c ++ s).
  now rewrite html_escape_app, html_escape_char, IH.
Qed.

Lemma has_char_app (c : ascii) (a b : string) :
  has_char c (a ++ b) = has_char c a || has_char c b.
Proof.
  induction a as [|x a IH]; simpl; [reflexivity|]. now rewrite IH, orb_assoc.
Qed.

Lemma escape_char_clean (c : ascii) :
  has_char "<" (escape_char c) = false
  /\ has_char ">" (escape_char c) = false
  /\ has_char DQUOTE (escape_char c) = false.
Proof. each_char c; vm_compute; repeat split. Qed.

Lemma html_escape_clean (s : string) :
  has_char "<" (html_escape s) = false
  /\ has_char ">" (html_escape s) = false
  /\ has_char DQUOTE (html_escape s) = false.
Proof.
  rewrite html_escape_each. induction s as [|c s [IH1 [IH2 IH3]]].
  - repeat split.
  - cbn [escape_each]. rewrite !has_char_app, IH1, IH2, IH3.
    destruct (escape_char_clean c) as [H1 [H2 H3]]. now rewrite H1, H2, H3.
Qed.

Lemma prefix_app (sub b : string) : String.prefix sub (sub ++ b) = true.
Proof.
  induction sub as [|c sub IH]; simpl; [now destruct b|].
  now destruct (ascii_dec c c).
Qed.

Lemma prefix_elim (sub s : string) :
  String.prefix sub s = true -> exists b, s = sub ++ b.
Proof.
  revert s. induction sub as [|c sub IH]; intros s H.
  - now exists s.
  - destruct s as [|x s]; simpl in H; [discriminate|].
    destruct (ascii_dec c x) as [->|]; [|discriminate].
    apply IH in H. destruct H as [b ->]. now exists b.
Qed.

Lemma contains_unfold (sub s : string) :
  contains sub s =
  String.prefix sub s
  || match s with
     | EmptyString => false
     | String _ s' => contains sub s'
     end.
Proof. now destruct s. Qed.

(** [sub in s] holds exactly when [s] is some text, [sub], some text. *)
Lemma contains_intro (sub a b : string) : contains sub (a ++ sub ++ b) = true.
Proof.
  induction a as [|c a IH].
  - rewrite contains_unfold. cbn [append]. now rewrite prefix_app.
  - rewrite contains_unfold. cbn [append]. rewrite IH. apply orb_true_r.
Qed.

Lemma contains_elim (sub s : string) :
  contains sub s = true -> exists a b, s = a ++ sub ++ b.
Proof.
  induction s as [|c s IH]; rewrite contains_unfold; intros H.
  - rewrite orb_false_r in H. apply prefix_elim in H. destruct H as [b ->].
    now exists EmptyString, b.
  - apply orb_true_iff in H. destruct H as [H|H].
    + apply prefix_elim in H. destruct H as [b ->]. now exists EmptyString, b.
    + apply IH in H. destruct H as [a [b ->]]. now exists (String c a), b.
Qed.

Lemma contains_skip (sub a b : string) :
  contains sub b = true -> contains sub (a ++ b) = true.
Proof.
  intros H. apply contains_elim in H. destruct H as [x [y ->]].
  rewrite <- append_assoc. apply contains_intro.
Qed.

Lemma contains_keep (sub a b : string) :
  contains sub a = true -> contains sub (a ++ b) = true.
Proof.
  intros H. apply contains_elim in H. destruct H as [x [y ->]].
  rewrite !append_assoc. apply contains_intro.
Qed.

Lemma prefix_nil (s : string) : String.prefix EmptyString s = true.
Proof. now destruct s. Qed.

Lemma prefix_cons (a b : ascii) (s1 s2 : string) :
  String.prefix (String a s1) (String b s2) = Ascii.eqb a b && String.prefix s1 s2.
Proof.
  simpl. destruct (ascii_dec a b) as [->|n].
  - now rewrite Ascii.eqb_refl.
  - apply Ascii.eqb_neq in n. now rewrite n.
Qed.

Lemma prefix_weaken (a b s : string) :
  String.prefix (a ++ b) s = true -> String.prefix a s = true.
Proof.
  revert s. induction a as [|c a IH]; intros s H; [now destruct s|].
  destruct s as [|x s]; [discriminate H|].
  cbn [append] in H. rewrite prefix_cons in *.
  apply andb_true_iff in H. destruct H as [H1 H2].
  now rewrite H1, (IH _ H2).
Qed.

Lemma no_lt_sc_no_script (s : string) :
  no_lt_sc s = true -> contains "<script>" s = false.
Proof.
  induction s as [|c s IH]; [reflexivity|].
  cbn [no_lt_sc]. rewrite contains_unfold. intros H.
  apply andb_true_iff in H. destruct H as [Hc Hs]. rewrite (IH Hs), orb_false_r.
  rewrite prefix_cons. rewrite Ascii.eqb_sym.
  destruct (Ascii.eqb c "<"); [|reflexivity].
  apply negb_true_iff in Hc.
  destruct (String.prefix "script>" s) eqn:E; [|reflexivity].
  apply (prefix_weaken "sc" "ript>") in E. congruence.
Qed.

Lemma length_app (a b : string) :
  String.length (a ++ b) = (String.length a + String.length b)%nat.
Proof. induction a; simpl; auto. Qed.

Lemma prefix_sc_app (a b : string) :
  (2 <=? String.length a)%nat = true ->
  String.prefix "sc" (a ++ b) = String.prefix "sc" a.
Proof.
  destruct a as [|x [|y a]]; try discriminate. intros _.
  cbn [append]. now rewrite !prefix_cons, !prefix_nil.
Qed.

Lemma harmless_app (a b : string) :
  harmless a = true -> harmless b = true -> harmless (a ++ b) = true.
Proof.
  unfold harmless. intros Ha Hb.
  apply andb_true_iff in Hb. destruct Hb as [Hb1 Hb2].
  induction a as [|c a IH]; [cbn; now rewrite Hb1, Hb2|].
  apply andb_true_iff in Ha. destruct Ha as [Ha1 Ha2].
  cbn [lt_inside no_lt_sc] in Ha1, Ha2.
  apply andb_true_iff in Ha1, Ha2. destruct Ha1 as [L1 L2], Ha2 as [S1 S2].
  assert (IH' := IH ltac:(now rewrite L2, S2)).
  apply andb_true_iff in IH'. destruct IH' as [I1 I2].
  cbn [append lt_inside no_lt_sc]. rewrite I1, I2, !andb_true_r.
  destruct (Ascii.eqb c "<"); [|reflexivity].
  rewrite prefix_sc_app by assumption. rewrite S1, andb_true_r.
  rewrite length_app. apply Nat.leb_le. apply Nat.leb_le in L1. lia.
Qed.

Lemma no_lt_harmless (s : string) : has_char "<" s = false -> harmless s = true.
Proof.
  unfold harmless. induction s as [|c s IH]; [reflexivity|].
  cbn [has_char lt_inside no_lt_sc]. intros H.
  apply orb_false_iff in H. destruct H as [Hc Hs]. rewrite Hc.
  apply IH in Hs. apply andb_true_iff in Hs. destruct Hs as [H1 H2].
  now rewrite H1, H2.
Qed.

Lemma uint_no_lt (d : Decimal.uint) :
  has_char "<" (NilEmpty.string_of_uint d) = false.
Proof. induction d; simpl; auto. Qed.

Lemma str_of_int_harmless (n : Z) : harmless (str_of_int n) = true.
Proof.
  apply no_lt_harmless. unfold str_of_int, NilZero.string_of_int.
  destruct (Z.to_int n) as [d|d]; unfold NilZero.string_of_uint.
  - destruct d; try reflexivity; apply uint_no_lt.
  - cbn [has_char]. destruct d; try reflexivity; apply uint_no_lt.
Qed.

Lemma html_escape_harmless (s : string) : harmless (html_escape s) = true.
Proof. apply no_lt_harmless. apply html_escape_clean. Qed.

Lemma row_class_badge_harmless (m : member) :
  harmless (fst (row_class_badge m)) = true
  /\ harmless (snd (row_class_badge m)) = true.
Proof.
  unfold row_class_badge. destruct (qc_number m <=? 3); [split; reflexivity|].
  destruct (list_eq_dec N.eq_dec _ _); split; reflexivity.
Qed.

Lemma render_member_row_harmless (m : member) :
  harmless (render_member_row m) = true.
Proof.
  rewrite render_member_row_eq.
  destruct (row_class_badge_harmless m) as [Hc Hb].
  apply harmless_app; [vm_compute; reflexivity|].
  apply harmless_app; [exact Hc|].
  apply harmless_app; [vm_compute; reflexivity|].
  apply harmless_app; [apply str_of_int_harmless|].
  apply harmless_app; [vm_compute; reflexivity|].
  apply harmless_app; [apply html_escape_harmless|].
  apply harmless_app; [vm_compute; reflexivity|].
  apply harmless_app; [apply html_escape_harmless|].
  apply harmless_app; [vm_compute; reflexivity|].
  apply harmless_app; [apply html_escape_harmless|].
  apply harmless_app; [vm_compute; reflexivity|].
  apply harmless_app; [exact Hb|].
  apply harmless_app; [vm_compute; reflexivity|].
  apply harmless_app; [apply html_escape_harmless|].
  vm_compute. reflexivity.
Qed.

(** C6: the callsign, the name and the date are embedded in the row
    escaped, and escaping turns each ampersand, angle bracket and double
    quote into its entity.  A name that contains "<script>" shows as
    "&lt;script&gt;", and no row contains "<script>". *)
Theorem row_text_escaped (m : member) :
  render_member_row m =
    row_text_0 ++ fst (row_class_badge m) ++ row_text_1
    ++ str_of_int (qc_number m) ++ row_text_2
    ++ html_escape (callsign m) ++ row_text_3
    ++ html_escape (callsign m) ++ row_text_4
    ++ html_escape (name m) ++ row_text_5 ++ snd (row_class_badge m)
    ++ row_text_6 ++ html_escape (format_date (join_date m)) ++ row_text_7
  /\ (forall text,
        html_escape text = escape_each text
        /\ has_char "<" (html_escape text) = false
        /\ has_char ">" (html_escape text) = false
        /\ has_char DQUOTE (html_escape text) = false)
  /\ (contains "<script>" (name m) = true ->
      contains "&lt;script&gt;" (render_member_row m) = true)
  /\ contains "<script>" (render_member_row m) = false.
Proof.
  split; [apply render_member_row_eq|].
  split; [intros text; split; [apply html_escape_each | apply html_escape_clean]|].
  split.
  - intros H. apply contains_elim in H. destruct H as [a [b Hn]].
    rewrite render_member_row_eq, Hn, !html_escape_app.
    do 9 apply contains_skip. apply contains_keep.
    change (html_escape "<script>") with "&lt;script&gt;".
    apply contains_intro.
  - apply no_lt_sc_no_script.
    assert (H := render_member_row_harmless m). unfold harmless in H.
    now apply andb_true_iff in H.
Qed.

Lemma row_text_escaped_witness :
  contains "&lt;script&gt;"
    (render_member_row {| callsign := "K1ABC"; name := "<script>alert(1)</script>";
                          join_date := "3/4/2024"; qc_number := 12 |}) = true.
Proof.
  apply (proj1 (proj2 (proj2 (row_text_escaped
           {| callsign := "K1ABC"; name := "<script>alert(1)</script>";
              join_date := "3/4/2024"; qc_number := 12 |})))).
  vm_compute. reflexivity.
Defined.


(** ** Further properties of the parser *)

Lemma rstrip_with_cons (sp : ascii -> bool) (c : ascii) (s : string) :
  rstrip_with sp (String c s) =
  match rstrip_with sp s with
  | EmptyString => if sp c then EmptyString else str1 c
  | r => String c r
  end.
Proof. reflexivity. Qed.

Lemma rstrip_with_idem (sp : ascii -> bool) (s : string) :
  rstrip_with sp (rstrip_with sp s) = rstrip_with sp s.
Proof.
  induction s as [|c s IH]; [reflexivity|].
  rewrite rstrip_with_cons. destruct (rstrip_with sp s) as [|x r] eqn:E.
  - destruct (sp c) eqn:Ec; [reflexivity|]. cbn. now rewrite Ec.
  - rewrite rstrip_with_cons. now rewrite IH.
Qed.

Lemma lstrip_rstrip_lstrip (sp : ascii -> bool) (s : string) :
  lstrip_with sp (rstrip_with sp (lstrip_with sp s))
  = rstrip_with sp (lstrip_with sp s).
Proof.
  induction s as [|c s IH]; [reflexivity|].
  cbn [lstrip_with]. destruct (sp c) eqn:Ec; [exact IH|].
  rewrite rstrip_with_cons.
  destruct (rstrip_with sp s); rewrite ?Ec; cbn [lstrip_with str1];
    rewrite ?Ec; reflexivity.
Qed.

Lemma strip_idem (s : string) : strip (strip s) = strip s.
Proof.
  unfold strip, strip_with.
  now rewrite lstrip_rstrip_lstrip, rstrip_with_idem.
Qed.

Lemma value_strip_stripped (v : value) (s : string) :
  value_strip v = Ok s -> strip s = s.
Proof.
  destruct v; simpl; intros H; inversion H; subst. apply strip_idem.
Qed.

Lemma row_fields_stripped (row : dict) (m : member) :
  row_fields row = Ok m ->
  strip (callsign m) = callsign m /\ strip (name m) = name m
  /\ strip (join_date m) = join_date m.
Proof.
  unfold row_fields. intros H.
  destruct (value_strip (get row "Callsign" _)) as [c|] eqn:Ec; simpl in H; [|discriminate].
  destruct (value_strip (get row "Name" _)) as [n|] eqn:En; simpl in H; [|discriminate].
  destruct (value_strip (get row "Join Date" _)) as [d|] eqn:Ed; simpl in H; [|discriminate].
  destruct (value_strip (get row "QC #" _)) as [q|] eqn:Eq; simpl in H; [|discriminate].
  inversion H; subst. cbn.
  repeat split; eapply value_strip_stripped; eassumption.
Qed.

Lemma Forall2_right {A B} (P : A -> B -> Prop) (Q : B -> Prop)
    (l : list A) (l' : list B) :
  (forall a b, P a b -> Q b) -> Forall2 P l l' -> Forall Q l'.
Proof. intros HPQ. induction 1; constructor; eauto. Qed.

(** Whatever a property of all rows' members, the members returned have
    it. *)
Lemma parse_members_from_rows (Q : member -> Prop) (csv_text : string)
    (members : list member) :
  (forall row m, row_fields row = Ok m -> Q m) ->
  parse_members csv_text = Ok members -> Forall Q members.
Proof.
  intros HQ. rewrite parse_members_sorts.
  destruct (members_before_sort csv_text) as [recs|e] eqn:E; simpl; [|discriminate].
  intros H. inversion H; subst. clear H.
  assert (Hrecs : Forall Q recs).
  { unfold members_before_sort in E.
    destruct (find_header 0 (splitlines csv_text)) as [i|].
    - apply for_rows_ok in E. destruct E as [_ [all [Hall ->]]].
      apply (Forall2_right _ Q) in Hall; [|exact HQ].
      apply Forall_forall. intros m Hm. apply filter_In in Hm.
      rewrite Forall_forall in Hall. now apply Hall.
    - inversion E. constructor. }
  apply Forall_forall. intros m Hm. rewrite Forall_forall in Hrecs. apply Hrecs.
  eapply Permutation_in; [symmetry; apply sort_by_perm | exact Hm].
Qed.

(** X1: the callsign, the name and the join date of every record
    [parse_members] returns are trimmed: stripping them again changes
    nothing. *)
Theorem parse_members_fields_stripped (csv_text : string)
    (members : list member) :
  parse_members csv_text = Ok members ->
  Forall (fun m => strip (callsign m) = callsign m
                   /\ strip (name m) = name m
                   /\ strip (join_date m) = join_date m) members.
Proof. apply parse_members_from_rows. exact row_fields_stripped. Qed.

Lemma parse_members_fields_stripped_witness :
  Forall (fun m => strip (callsign m) = callsign m
                   /\ strip (name m) = name m
                   /\ strip (join_date m) = join_date m) [w1aw].
Proof.
  apply (parse_members_fields_stripped (header_line ++ nl ++ w1aw_line)).
  vm_compute. reflexivity.
Defined.

Lemma find_header_shift (k : nat) (lines : list string) :
  find_header (S k) lines = option_map S (find_header k lines).
Proof.
  revert k. induction lines as [|l lines IH]; intros k; simpl; [reflexivity|].
  destruct (contains "Callsign" l); [reflexivity | apply IH].
Qed.

(** X2: a line without the token in front of a text changes nothing:
    [parse_members] reads the text as if the line were not there. *)
Theorem parse_members_skips_leading_line (line csv_text : string) :
  one_line line = true -> no_token line ->
  parse_members (line ++ nl ++ csv_text) = parse_members csv_text.
Proof.
  intros Hl Ht. unfold parse_members, splitlines.
  change (nl ++ csv_text) with (String LF csv_text).
  rewrite splitlines_from_line by assumption. cbn [append find_header].
  unfold no_token in Ht. rewrite Ht. rewrite find_header_shift.
  destruct (find_header 0 (splitlines_from EmptyString csv_text)); reflexivity.
Qed.

Lemma parse_members_skips_leading_line_witness :
  parse_members ("QRQ Crew Roster" ++ nl ++ unsorted_csv)
  = parse_members unsorted_csv.
Proof.
  apply (parse_members_skips_leading_line "QRQ Crew Roster" unsorted_csv).
  - vm_compute. reflexivity.
  - vm_compute. reflexivity.
Defined.

Lemma key_eqb_eq (a b : option string) : key_eqb a b = true <-> a = b.
Proof.
  destruct a as [x|], b as [y|]; simpl; try easy.
  rewrite String.eqb_eq. split; [now intros -> | now inversion 1].
Qed.

Lemma get_dict_set_other (d : dict) (k : option string) (v default : value)
    (q : string) :
  key_eqb k (Some q) = false ->
  get (dict_set d k v) q default = get d q default.
Proof.
  intros Hk. induction d as [|[k' v'] d IH]; simpl.
  - now rewrite Hk.
  - destruct (key_eqb k' k) eqn:E; simpl.
    + apply key_eqb_eq in E. subst k'. now rewrite Hk.
    + now rewrite IH.
Qed.

Lemma get_dict_set_same (d : dict) (q : string) (v default : value) :
  get (dict_set d (Some q) v) q default = v.
Proof.
  induction d as [|[k' v'] d IH]; simpl.
  - now rewrite String.eqb_refl.
  - destruct (key_eqb k' (Some q)) eqn:E; simpl; rewrite E; [reflexivity | exact IH].
Qed.

Lemma str_valued_set (d : dict) (k v : string) :
  str_valued d -> str_valued (dict_set d (Some k) (Str v)).
Proof.
  intros H q default. destruct (String.eqb k q) eqn:E.
  - apply String.eqb_eq in E. subst q. exists v. apply get_dict_set_same.
  - rewrite get_dict_set_other by exact E. apply H.
Qed.

Lemma str_valued_zip (fieldnames row : list string) (d : dict) :
  str_valued d -> str_valued (dict_zip d fieldnames row).
Proof.
  revert d row. induction fieldnames as [|k ks IH]; intros d row H; [exact H|].
  destruct row as [|v vs]; [exact H|]. cbn [dict_zip].
  apply IH. now apply str_valued_set.
Qed.

(** A row with a field for every column has a string in every column. *)
Lemma make_row_str_valued (fieldnames row : list string) :
  (List.length fieldnames <= List.length row)%nat ->
  str_valued (make_row fieldnames row).
Proof.
  intros Hlen. unfold make_row.
  assert (Hd : str_valued (dict_zip [] fieldnames row)).
  { apply str_valued_zip. intros q default. now exists default. }
  destruct (List.length fieldnames <? List.length row)%nat.
  - intros q default. rewrite get_dict_set_other by reflexivity. apply Hd.
  - destruct (List.length row <? List.length fieldnames)%nat eqn:E; [|exact Hd].
    apply Nat.ltb_lt in E. lia.
Qed.

Lemma row_fields_str_valued (row : dict) :
  str_valued row -> exists m, row_fields row = Ok m.
Proof.
  intros H. unfold row_fields.
  destruct (H "Callsign" EmptyString) as [c ->].
  destruct (H "Name" EmptyString) as [n ->].
  destruct (H "Join Date" EmptyString) as [d ->].
  destruct (H "QC #" "0") as [q ->]. cbn. eexists. reflexivity.
Qed.

Lemma for_rows_dict_rows_ok (fieldnames : list string) (g : gen (list string))
    (members : list member) :
  gen_end g = None ->
  Forall (fun row => row = []
                     \/ (List.length fieldnames <= List.length row)%nat)
         (yielded g) ->
  exists out, for_rows (dict_rows fieldnames g) members = Ok out.
Proof.
  revert members. induction g as [|row rest IH|e]; intros members He Hall.
  - now exists members.
  - cbn in He, Hall. inversion Hall as [|? ? Hrow Hrest]; subst.
    cbn [dict_rows]. destruct row as [|f row]; [now apply IH|].
    destruct Hrow as [Hrow|Hrow]; [discriminate|].
    cbn [for_rows]. unfold row_body.
    destruct (row_fields_str_valued _ (make_row_str_valued _ _ Hrow)) as [m ->].
    cbn. destruct (is_valid m); now apply IH.
  - discriminate.
Qed.

Lemma data_rows_records (csv_text : string) (i : nat) :
  data_rows (splitlines csv_text) i =
  match records csv_text i with
  | Stop => Stop
  | Fail e => Fail e
  | Yield fieldnames rest => dict_rows fieldnames rest
  end.
Proof. reflexivity. Qed.

(** X3: [parse_members] returns on every roster whose rows are as long
    as its header.  When the csv reader raises nothing and every record
    after the header row is blank or has a field for each column of the
    header, no row is missing a field and the records are returned. *)
Theorem parse_members_rectangular (csv_text : string) (i : nat)
    (fieldnames : list string) (rest : gen (list string)) :
  find_header 0 (splitlines csv_text) = Some i ->
  records csv_text i = Yield fieldnames rest ->
  gen_end rest = None ->
  Forall (fun row => row = []
                     \/ (List.length fieldnames <= List.length row)%nat)
         (yielded rest) ->
  exists members, parse_members csv_text = Ok members.
Proof.
  intros Hi Hr He Hall. unfold parse_members. rewrite Hi, data_rows_records, Hr.
  destruct (for_rows_dict_rows_ok fieldnames rest [] He Hall) as [out ->].
  now eexists.
Qed.

Lemma parse_members_rectangular_witness :
  exists members, parse_members unsorted_csv = Ok members.
Proof.
  apply (parse_members_rectangular unsorted_csv 0 ["Callsign"; "QC #"]
           (Yield ["K1ABC"; "2"] (Yield ["W1AW"; "1"] Stop))).
  - vm_compute. reflexivity.
  - vm_compute. reflexivity.
  - reflexivity.
  - repeat constructor; right; simpl; lia.
Defined.

Lemma get_dict_zip_absent (fieldnames row : list string) (d : dict)
    (q : string) (default : value) :
  ~ In q fieldnames ->
  get (dict_zip d fieldnames row) q default = get d q default.
Proof.
  revert d row. induction fieldnames as [|k ks IH]; intros d row Hq; [reflexivity|].
  destruct row as [|v vs]; [reflexivity|]. cbn [dict_zip].
  rewrite IH by (intros H; apply Hq; now right).
  apply get_dict_set_other. simpl. apply String.eqb_neq.
  intros ->. apply Hq. now left.
Qed.

Lemma get_fold_absent (keys : list string) (d : dict) (q : string)
    (default : value) :
  ~ In q keys ->
  get (fold_left (fun d key => dict_set d (Some key) NoneV) keys d) q default
  = get d q default.
Proof.
  revert d. induction keys as [|k ks IH]; intros d Hq; [reflexivity|].
  cbn [fold_left]. rewrite IH by (intros H; apply Hq; now right).
  apply get_dict_set_other. simpl. apply String.eqb_neq.
  intros ->. apply Hq. now left.
Qed.

Lemma In_skipn_In {A} (n : nat) (l : list A) (x : A) : In x (skipn n l) -> In x l.
Proof.
  revert l. induction n as [|n IH]; intros l H; [exact H|].
  destruct l as [|y l]; [exact H|]. right. now apply IH.
Qed.

(** A column the header does not name is missing from every row: looking
    it up gives the default. *)
Lemma get_make_row_absent (fieldnames row : list string) (q : string)
    (default : value) :
  ~ In q fieldnames -> get (make_row fieldnames row) q default = default.
Proof.
  intros Hq. unfold make_row.
  destruct (List.length fieldnames <? List.length row)%nat.
  - rewrite get_dict_set_other by reflexivity. now rewrite get_dict_zip_absent.
  - destruct (List.length row <? List.length fieldnames)%nat.
    + rewrite get_fold_absent; [now rewrite get_dict_zip_absent|].
      intros H. apply Hq. eapply In_skipn_In. exact H.
    + now rewrite get_dict_zip_absent.
Qed.

Lemma row_fields_missing_column (fieldnames row : list string) (m : member) :
  ~ In "Callsign" fieldnames \/ ~ In "QC #" fieldnames ->
  row_fields (make_row fieldnames row) = Ok m -> is_valid m = false.
Proof.
  intros Hmiss H. unfold row_fields in H.
  destruct (value_strip (get _ "Callsign" _)) as [c|] eqn:Ec; simpl in H; [|discriminate].
  destruct (value_strip (get _ "Name" _)) as [n|] eqn:En; simpl in H; [|discriminate].
  destruct (value_strip (get _ "Join Date" _)) as [d|] eqn:Ed; simpl in H; [|discriminate].
  destruct (value_strip (get _ "QC #" _)) as [q|] eqn:Eq; simpl in H; [|discriminate].
  inversion H; subst. clear H. unfold is_valid. cbn [callsign qc_number].
  destruct Hmiss as [Hc|Hq].
  - rewrite get_make_row_absent in Ec by exact Hc.
    cbn in Ec. inversion Ec; subst. reflexivity.
  - rewrite get_make_row_absent in Eq by exact Hq.
    cbn in Eq. inversion Eq; subst. apply andb_false_r.
Qed.

Lemma for_rows_missing_column (fieldnames : list string)
    (g : gen (list string)) (members out : list member) :
  ~ In "Callsign" fieldnames \/ ~ In "QC #" fieldnames ->
  for_rows (dict_rows fieldnames g) members = Ok out -> out = members.
Proof.
  intros Hmiss. revert members.
  induction g as [|row rest IH|e]; intros members H.
  - now inversion H.
  - cbn [dict_rows] in H. destruct row as [|f row]; [now apply IH|].
    cbn [for_rows] in H. unfold row_body in H.
    destruct (row_fields (make_row fieldnames (f :: row))) as [m|] eqn:E;
      simpl in H; [|discriminate].
    rewrite (row_fields_missing_column _ _ _ Hmiss E) in H. now apply IH.
  - discriminate.
Qed.

(** X4: the columns are found by their exact names.  When the header row
    has no field "Callsign", or no field "QC #", every row lacks a callsign
    or has the rank 0, and [parse_members] returns no member. *)
Theorem parse_members_missing_column (csv_text : string) (i : nat)
    (fieldnames : list string) (rest : gen (list string))
    (members : list member) :
  find_header 0 (splitlines csv_text) = Some i ->
  records csv_text i = Yield fieldnames rest ->
  ~ In "Callsign" fieldnames \/ ~ In "QC #" fieldnames ->
  parse_members csv_text = Ok members ->
  members = [].
Proof.
  intros Hi Hr Hmiss. unfold parse_members. rewrite Hi, data_rows_records, Hr.
  destruct (for_rows (dict_rows fieldnames rest) []) as [out|e] eqn:E;
    simpl; [|discriminate].
  apply for_rows_missing_column in E; [|exact Hmiss]. subst out.
  intros H. now inversion H.
Qed.

Lemma parse_members_missing_column_witness :
  exists members,
    parse_members no_callsign_column_csv = Ok members /\ members = [].
Proof.
  exists []. split; [vm_compute; reflexivity|].
  apply (parse_members_missing_column no_callsign_column_csv 0
           ["My Callsign"; "QC #"] (Yield ["W1AW"; "1"] Stop)).
  - vm_compute. reflexivity.
  - vm_compute. reflexivity.
  - left. intros [H|[H|[]]]; discriminate H.
  - vm_compute. reflexivity.
Defined.


(** ** Further properties of escaping and of the date formatter *)

Lemma escape_char_cases (c : ascii) :
  (c = "&"%char /\ escape_char c = "&amp;")
  \/ (c = "<"%char /\ escape_char c = "&lt;")
  \/ (c = ">"%char /\ escape_char c = "&gt;")
  \/ (c = DQUOTE /\ escape_char c = "&quot;")
  \/ (needs_escape c = false /\ escape_char c = str1 c).
Proof.
  unfold escape_char, needs_escape.
  destruct (Ascii.eqb_spec c "&"); [now left|].
  destruct (Ascii.eqb_spec c "<"); [now right; left|].
  destruct (Ascii.eqb_spec c ">"); [now right; right; left|].
  destruct (Ascii.eqb_spec c DQUOTE); [now right; right; right; left|].
  now right; right; right; right.
Qed.

Lemma needs_escape_amp (c : ascii) : needs_escape c = false -> c <> "&"%char.
Proof. intros H ->. discriminate H. Qed.

(** The first escaped character of a text can be read back. *)
Lemma escape_char_app_inj (c c' : ascii) (r r' : string) :
  escape_char c ++ r = escape_char c' ++ r' -> c = c' /\ r = r'.
Proof.
  destruct (escape_char_cases c) as [[-> ->]|[[-> ->]|[[-> ->]|[[-> ->]|[N ->]]]]];
  destruct (escape_char_cases c') as [[-> ->]|[[-> ->]|[[-> ->]|[[-> ->]|[N' ->]]]]];
  cbn; intros H; try discriminate H;
  try (inversion H; subst; split; reflexivity);
  try (inversion H; subst; discriminate N);
  try (inversion H; subst; discriminate N').
Qed.

Lemma escape_each_inj (a b : string) :
  escape_each a = escape_each b -> a = b.
Proof.
  revert b. induction a as [|c a IH]; intros [|c' b] H.
  - reflexivity.
  - cbn in H. destruct (escape_char_cases c') as [[_ E]|[[_ E]|[[_ E]|[[_ E]|[_ E]]]]];
      rewrite E in H; discriminate H.
  - cbn in H. destruct (escape_char_cases c) as [[_ E]|[[_ E]|[[_ E]|[[_ E]|[_ E]]]]];
      rewrite E in H; discriminate H.
  - cbn [escape_each] in H. apply escape_char_app_inj in H.
    destruct H as [-> H]. now rewrite (IH _ H).
Qed.

(** X5: escaping loses nothing: two texts with the same escaped form are
    the same text. *)
Theorem html_escape_injective (a b : string) :
  html_escape a = html_escape b -> a = b.
Proof. rewrite !html_escape_each. apply escape_each_inj. Qed.

Lemma html_escape_injective_witness : "a<b" = "a<b".
Proof. apply (html_escape_injective "a<b" "a<b"). reflexivity. Defined.

Lemma escape_each_length (s : string) :
  (String.length s <= String.length (escape_each s))%nat
  /\ (any_needs_escape s = true ->
      String.length s < String.length (escape_each s))%nat.
Proof.
  induction s as [|c s [IH1 IH2]]; [split; [reflexivity | discriminate]|].
  cbn [escape_each any_needs_escape String.length]. rewrite length_app.
  destruct (escape_char_cases c) as [[-> ->]|[[-> ->]|[[-> ->]|[[-> ->]|[N ->]]]]];
    cbn [String.length str1]; try (split; [lia | intros _; lia]).
  rewrite N. cbn [orb]. split; [lia|]. intros H. apply IH2 in H. lia.
Qed.

Lemma escape_each_plain (s : string) :
  any_needs_escape s = false -> escape_each s = s.
Proof.
  induction s as [|c s IH]; [reflexivity|].
  cbn [any_needs_escape escape_each]. intros H.
  apply orb_false_iff in H. destruct H as [Hc Hs]. rewrite (IH Hs).
  destruct (escape_char_cases c) as [[-> _]|[[-> _]|[[-> _]|[[-> _]|[_ ->]]]]];
    try discriminate Hc. reflexivity.
Qed.

(** X6: escaping leaves a text as it is exactly when the text has no
    ampersand, angle bracket or double quote; an apostrophe is not
    escaped. *)
Theorem html_escape_unchanged (text : string) :
  html_escape text = text <-> any_needs_escape text = false.
Proof.
  rewrite html_escape_each. split.
  - intros H. destruct (any_needs_escape text) eqn:E; [|reflexivity].
    apply (proj2 (escape_each_length text)) in E. rewrite H in E. lia.
  - apply escape_each_plain.
Qed.

Lemma html_escape_unchanged_witness :
  html_escape "O'Neil" = "O'Neil".
Proof. apply (proj2 (html_escape_unchanged "O'Neil")). reflexivity. Defined.

Lemma count_char_app (c : ascii) (a b : string) :
  count_char c (a ++ b) = (count_char c a + count_char c b)%nat.
Proof. induction a as [|x a IH]; simpl; [reflexivity | rewrite IH; lia]. Qed.

Lemma count_char_absent (c : ascii) (s : string) :
  has_char c s = false -> count_char c s = O.
Proof.
  induction s as [|x s IH]; [reflexivity|]. cbn. intros H.
  apply orb_false_iff in H. destruct H as [Hx Hs]. now rewrite Hx, IH.
Qed.

Lemma uint_no_markup (c : ascii) (d : Decimal.uint) :
  markup_char c -> has_char c (NilEmpty.string_of_uint d) = false.
Proof.
  intros [->|[->| ->]]; induction d; simpl; auto.
Qed.

Lemma str_of_int_no_markup (c : ascii) (n : Z) :
  markup_char c -> has_char c (str_of_int n) = false.
Proof.
  intros Hc. unfold str_of_int, NilZero.string_of_int.
  destruct (Z.to_int n) as [d|d]; unfold NilZero.string_of_uint.
  - destruct d; try (destruct Hc as [->|[->| ->]]; reflexivity);
      now apply uint_no_markup.
  - cbn [append has_char].
    replace (Ascii.eqb "-" c) with false
      by (destruct Hc as [->|[->| ->]]; reflexivity).
    cbn [orb].
    destruct d; try (destruct Hc as [->|[->| ->]]; reflexivity);
      now apply uint_no_markup.
Qed.

Lemma html_escape_no_markup (c : ascii) (s : string) :
  markup_char c -> has_char c (html_escape s) = false.
Proof.
  destruct (html_escape_clean s) as [H1 [H2 H3]].
  now intros [->|[->| ->]].
Qed.

Lemma render_member_row_count (c : ascii) (m : member) :
  markup_char c ->
  count_char c (render_member_row m) =
  count_char c
    (row_text_0 ++ fst (row_class_badge m) ++ row_text_1 ++ row_text_2
     ++ row_text_3 ++ row_text_4 ++ row_text_5 ++ snd (row_class_badge m)
     ++ row_text_6 ++ row_text_7).
Proof.
  intros Hc. rewrite render_member_row_eq, !count_char_app.
  rewrite (count_char_absent c (str_of_int _)) by now apply str_of_int_no_markup.
  rewrite !(count_char_absent c (html_escape _)) by now apply html_escape_no_markup.
  lia.
Qed.

(** X7: the fields of a member cannot add markup to its row.  The number
    of "<", of ">" and of double quotes in a rendered row depends on the
    class and the badge only, not on the callsign, the name, the date or
    the rank. *)
Theorem render_member_row_markup_fixed (c : ascii) (m m' : member) :
  markup_char c ->
  row_class_badge m = row_class_badge m' ->
  count_char c (render_member_row m) = count_char c (render_member_row m').
Proof.
  intros Hc H. rewrite !render_member_row_count by assumption. now rewrite H.
Qed.

Lemma render_member_row_markup_fixed_witness :
  count_char "<"
    (render_member_row {| callsign := "K1ABC"; name := "<b>Bob</b>";
                          join_date := "<i>"; qc_number := 12 |})
  = count_char "<"
      (render_member_row {| callsign := "N0CALL"; name := "Ann";
                            join_date := "3/4/2024"; qc_number := 40 |}).
Proof.
  apply (render_member_row_markup_fixed "<"
           {| callsign := "K1ABC"; name := "<b>Bob</b>";
              join_date := "<i>"; qc_number := 12 |}
           {| callsign := "N0CALL"; name := "Ann";
              join_date := "3/4/2024"; qc_number := 40 |}).
  - now left.
  - vm_compute. reflexivity.
Defined.

Lemma split_no_sep (sep : ascii) (s : string) :
  has_char sep s = false -> split sep s = [s].
Proof.
  induction s as [|c s IH]; [reflexivity|]. cbn [has_char split]. intros H.
  apply orb_false_iff in H. destruct H as [Hc Hs]. now rewrite Hc, (IH Hs).
Qed.

Lemma split_parts_no_sep (sep : ascii) (s : string) :
  Forall (fun part => has_char sep part = false) (split sep s).
Proof.
  induction s as [|c s IH]; [repeat constructor|]. cbn [split].
  destruct (Ascii.eqb c sep) eqn:E; [now constructor|].
  destruct (split sep s) as [|p ps].
  - repeat constructor. cbn. now rewrite E.
  - inversion IH as [|? ? Hp Hps]; subst. constructor; [|assumption].
    cbn. now rewrite E, Hp.
Qed.

Lemma months_no_slash (k : nat) : has_char "/" (nth k MONTHS EmptyString) = false.
Proof. do 12 (destruct k as [|k]; [reflexivity|]). now destruct k. Qed.

Lemma uint_no_slash (d : Decimal.uint) :
  has_char "/" (NilEmpty.string_of_uint d) = false.
Proof. induction d; simpl; auto. Qed.

Lemma str_of_int_no_slash (n : Z) : has_char "/" (str_of_int n) = false.
Proof.
  unfold str_of_int, NilZero.string_of_int.
  destruct (Z.to_int n) as [d|d]; unfold NilZero.string_of_uint.
  - destruct d; try reflexivity; apply uint_no_slash.
  - cbn [append has_char]. destruct d; try reflexivity; apply uint_no_slash.
Qed.

Lemma format_date_no_slash (date_str : string) :
  has_char "/" date_str = false -> format_date date_str = date_str.
Proof. intros H. unfold format_date. now rewrite (split_no_sep _ _ H). Qed.

(** The formatter returns its argument or a text without slash. *)
Lemma format_date_shape (date_str : string) :
  format_date date_str = date_str
  \/ has_char "/" (format_date date_str) = false.
Proof.
  unfold format_date.
  assert (Hparts := split_parts_no_sep "/" date_str).
  destruct (split "/" date_str) as [|a [|b [|c [|x l]]]]; try now left.
  destruct (int a) as [m|]; [|now left].
  destruct (int b) as [d|]; [|now left].
  destruct ((0 <=? m - 1) && (m - 1 <? 12)); [|now left].
  right. rewrite !has_char_app, months_no_slash, str_of_int_no_slash.
  inversion Hparts as [|? ? _ H1]; subst. inversion H1 as [|? ? _ H2]; subst.
  inversion H2 as [|? ? Hc _]; subst. now rewrite Hc.
Qed.

(** X8: formatting a date twice is formatting it once: the formatter
    leaves its own results, and every text without a slash, as they are. *)
Theorem format_date_idempotent (date_str : string) :
  format_date (format_date date_str) = format_date date_str
  /\ (has_char "/" date_str = false -> format_date date_str = date_str).
Proof.
  split; [|apply format_date_no_slash].
  destruct (format_date_shape date_str) as [H|H].
  - now rewrite H.
  - now apply format_date_no_slash.
Qed.

Lemma format_date_idempotent_witness : format_date "Mar 4, 2024" = "Mar 4, 2024".
Proof. apply (proj2 (format_date_idempotent "Mar 4, 2024")). reflexivity. Defined.

(** ** Further properties of the page and of the run *)

Lemma contains_refl (s : string) : contains s s = true.
Proof.
  rewrite <- (append_nil_r s) at 2.
  apply (contains_intro s EmptyString EmptyString).
Qed.

Lemma join_contains (sep x : string) (parts : list string) :
  In x parts -> contains x (join sep parts) = true.
Proof.
  unfold join. induction parts as [|y [|z parts] IH]; intros H.
  - destruct H.
  - destruct H as [->|[]]. apply contains_refl.
  - cbn [String.concat]. destruct H as [->|H].
    + apply contains_keep. apply contains_refl.
    + do 2 apply contains_skip. apply IH. exact H.
Qed.

Lemma page_before_rows_start :
  exists tail, page_before_rows = "</span>" ++ tail.
Proof. apply prefix_elim. vm_compute. reflexivity. Qed.

(** X9: the page shows every member it is given, and the count of the
    members with "Member" for one member and "Members" for any other
    number, zero too. *)
Theorem generate_html_shows_members (members : list member) (now : string) :
  (forall m, In m members ->
     contains (render_member_row m) (generate_html members now) = true)
  /\ contains
       ((if Nat.eqb (List.length members) 1 then "1 Member"
         else str_of_int (Z.of_nat (List.length members)) ++ " Members")
        ++ "</span>")
       (generate_html members now) = true.
Proof.
  unfold generate_html. cbv zeta. split.
  - intros m Hm. do 3 apply contains_skip. apply contains_keep.
    apply join_contains. now apply in_map.
  - destruct page_before_rows_start as [tail ->].
    apply contains_skip.
    set (count_text := str_of_int _ ++ " Member" ++ _).
    rewrite (append_assoc "</span>" tail).
    rewrite <- (append_assoc count_text "</span>").
    apply contains_keep. subst count_text.
    destruct members as [|m [|m' ms]].
    + vm_compute. reflexivity.
    + vm_compute. reflexivity.
    + replace (Nat.eqb (List.length (m :: m' :: ms)) 1) with false by reflexivity.
      replace (Z.of_nat (List.length (m :: m' :: ms)) =? 1) with false
        by (symmetry; apply Z.eqb_neq; cbn [List.length]; lia).
      rewrite !append_assoc. cbn [append]. apply contains_refl.
Qed.

Lemma generate_html_shows_members_witness :
  contains (render_member_row w1aw) (generate_html [w1aw] "now") = true.
Proof.
  apply (proj1 (generate_html_shows_members [w1aw] "now") w1aw). now left.
Defined.

Lemma join_harmless (parts : list string) :
  Forall (fun p => harmless p = true) parts -> harmless (join nl parts) = true.
Proof.
  unfold join. induction parts as [|y [|z parts] IH]; intros H.
  - reflexivity.
  - now inversion H.
  - cbn [String.concat]. inversion H as [|? ? Hy Hrest]; subst.
    apply harmless_app; [exact Hy|]. apply harmless_app; [reflexivity|].
    now apply IH.
Qed.

(** X10: when the time of the update has no "<", no page contains
    "<script>", whatever the members' callsigns, names and dates. *)
Theorem generate_html_no_script (members : list member) (now : string) :
  has_char "<" now = false ->
  contains "<script>" (generate_html members now) = false.
Proof.
  intros Hnow. apply no_lt_sc_no_script.
  assert (H : harmless (generate_html members now) = true).
  { unfold generate_html. cbv zeta.
    apply harmless_app; [vm_compute; reflexivity|].
    apply harmless_app.
    { apply harmless_app; [apply str_of_int_harmless|].
      apply harmless_app; [reflexivity|].
      now destruct (Z.of_nat (List.length members) =? 1). }
    apply harmless_app; [vm_compute; reflexivity|].
    apply harmless_app.
    { apply join_harmless. apply Forall_forall. intros p Hp.
      apply in_map_iff in Hp. destruct Hp as [m [<- _]].
      apply render_member_row_harmless. }
    apply harmless_app; [vm_compute; reflexivity|].
    apply harmless_app; [now apply no_lt_harmless|].
    vm_compute. reflexivity. }
  unfold harmless in H. apply andb_true_iff in H. exact (proj2 H).
Qed.

Lemma generate_html_no_script_witness :
  contains "<script>"
    (generate_html [{| callsign := "K1ABC"; name := "<script>alert(1)</script>";
                       join_date := "3/4/2024"; qc_number := 12 |}]
       "November 04, 2026 at 12:00 UTC") = false.
Proof. apply generate_html_no_script. reflexivity. Defined.

Lemma generate_html_contains_row (members : list member) (now : string)
    (m : member) :
  In m members ->
  contains (render_member_row m) (generate_html members now) = true.
Proof.
  intros Hm. unfold generate_html. cbv zeta.
  do 3 apply contains_skip. apply contains_keep.
  apply join_contains. now apply in_map.
Qed.

(** X11: fetching, parsing and writing compose into the file: when the
    fetch succeeds, members are parsed and roster.html is opened and
    written without error, the file holds a page that shows the row of
    every parsed member. *)
Theorem main_writes_every_member (w : World) (csv_text : string)
    (members : list member) :
  fetch_csv w = Ok csv_text -> parse_members csv_text = Ok members ->
  members <> [] -> disk w = WriteOk ->
  exists page,
    roster_html (snd (main w)) = Some page
    /\ forall m, In m members -> contains (render_member_row m) page = true.
Proof.
  intros F P Hne D. destruct (main_writes w csv_text members F P Hne D) as [_ H].
  eexists. split; [exact H|]. intros m Hm. now apply generate_html_contains_row.
Qed.

Lemma main_writes_every_member_witness :
  exists page,
    roster_html (snd (main example_world)) = Some page
    /\ forall m, In m [w1aw] -> contains (render_member_row m) page = true.
Proof.
  apply (main_writes_every_member example_world
           (header_line ++ nl ++ w1aw_line) [w1aw]).
  - reflexivity.
  - vm_compute. reflexivity.
  - discriminate.
  - reflexivity.
Defined.

Lemma app_one_neq {A} (l : list A) (x : A) : (l ++ [x])%list <> l.
Proof.
  intros H. apply (f_equal (@List.length A)) in H.
  rewrite List.length_app in H. simpl in H. lia.
Qed.

(** X12: the run reports on stderr exactly when it returns 1: one line,
    beginning with "ERROR: ".  When it returns 0, and when the parser
    raises, it writes nothing to stderr. *)
Theorem main_reports_failure (w : World) :
  (fst (main w) = Ok 1 ->
     exists line, stderr (snd (main w)) = (stderr w ++ [line])%list
                  /\ String.prefix "ERROR: " line = true)
  /\ (fst (main w) <> Ok 1 -> stderr (snd (main w)) = stderr w).
Proof.
  unfold main, write_roster. cbn [print fetch_csv disk].
  destruct (fetch_csv w) as [csv_text|e].
  - destruct (parse_members csv_text) as [[|m ms]|e];
      [ | destruct (disk w) | ]; cbn [fst snd]; split;
      intros H; try discriminate H; try reflexivity; try (now elim H).
    eexists. split; reflexivity.
  - cbn [fst snd]. split; intros H; [|now elim H].
    eexists. split; [reflexivity|].
    apply (prefix_app "ERROR: " ("Failed to fetch CSV: " ++ exn_msg e)).
Qed.

Lemma main_reports_failure_witness :
  exists line,
    stderr (snd (main offline_world)) = (stderr offline_world ++ [line])%list
    /\ String.prefix "ERROR: " line = true.
Proof.
  apply (proj1 (main_reports_failure offline_world)). vm_compute. reflexivity.
Defined.

(** X13: the run never reads roster.html.  Whatever the file holds
    before, the run returns or raises the same and prints the same.  After
    a run that opened the file, the file is the same whatever it held
    before, the whole page after a run that returns 0; after a run that
    did not open it, the file is what it was. *)
Theorem main_ignores_old_file (w : World) (file : option string) :
  fst (main (with_roster file w)) = fst (main w)
  /\ stdout (snd (main (with_roster file w))) = stdout (snd (main w))
  /\ stderr (snd (main (with_roster file w))) = stderr (snd (main w))
  /\ (fst (main w) = Ok 0 ->
      roster_html (snd (main (with_roster file w))) = roster_html (snd (main w)))
  /\ (roster_html (snd (main (with_roster file w))) = roster_html (snd (main w))
      \/ (roster_html (snd (main (with_roster file w))) = file
          /\ roster_html (snd (main w)) = roster_html w)).
Proof.
  unfold main, write_roster, with_roster, set_roster.
  cbn [print fetch_csv utc_now stdout stderr disk].
  destruct (fetch_csv w) as [csv_text|e].
  - destruct (parse_members csv_text) as [[|m ms]|e];
      [ | destruct (disk w) | ];
      cbn [fst snd print print_stderr roster_html];
      (split; [reflexivity|split; [reflexivity|split; [reflexivity|split]]]);
      try (intros H; first [discriminate H | reflexivity]);
      first [left; reflexivity | right; split; reflexivity].
  - cbn [fst snd print print_stderr roster_html].
    split; [reflexivity|split; [reflexivity|split; [reflexivity|split]]];
      [intros H; discriminate H | right; split; reflexivity].
Qed.

Lemma main_ignores_old_file_witness :
  roster_html (snd (main (with_roster (Some "old page") example_world)))
  = roster_html (snd (main example_world)).
Proof.
  apply (proj1 (proj2 (proj2 (proj2
           (main_ignores_old_file example_world (Some "old page")))))).
  vm_compute. reflexivity.
Defined.






(** ** What [parse_members] can raise *)

Lemma step_plain (self : ReaderObj) (c : ascii) :
  is_crlf c = false -> state self <> EAT_CRNL ->
  match parse_process_char self (Some c) with
  | Ok self' => state self' <> EAT_CRNL
  | Raise e => e = field_too_large
  end.
Proof.
  intros Hc Hs. unfold parse_process_char, parse_add_char.
  destruct (state self) eqn:E; try (now elim Hs); rewrite ?Hc;
    destruct (Ascii.eqb c quotechar); destruct (Ascii.eqb c delimiter);
    destruct (field_limit <=? field_len self)%N eqn:L; cbn; rewrite ?L; cbn;
    rewrite ?E; try reflexivity; try discriminate.
Qed.

Lemma step_end (self : ReaderObj) :
  exists self', parse_process_char self None = Ok self'
                /\ (state self' = START_RECORD \/ state self' = IN_QUOTED_FIELD).
Proof.
  unfold parse_process_char.
  destruct (state self) eqn:E; eexists; (split; [reflexivity|]); cbn;
    rewrite ?E; auto.
Qed.

Lemma step_line_feed (self : ReaderObj) :
  match parse_process_char self (Some LF) with
  | Ok self' => True
  | Raise e => e = field_too_large
  end.
Proof.
  unfold parse_process_char, parse_add_char.
  destruct (state self) eqn:E; cbn;
    destruct (field_limit <=? field_len self)%N; cbn; auto.
Qed.

Lemma feed_line_end_state (line : string) (self self' : ReaderObj) :
  feed_line self line = Ok self' ->
  state self' = START_RECORD \/ state self' = IN_QUOTED_FIELD.
Proof.
  revert self. induction line as [|c line IH]; intros self H.
  - cbn in H. destruct (step_end self) as [r [Hr Hst]]. congruence.
  - cbn [feed_line] in H.
    destruct (parse_process_char self (Some c)) as [r|e]; [|discriminate H].
    now apply (IH r).
Qed.

(** On a clean line the reader raises nothing but the error of the
    field limit. *)
Lemma feed_line_clean (line : string) (self : ReaderObj) :
  clean_line line -> state self <> EAT_CRNL ->
  match feed_line self line with
  | Ok _ => True
  | Raise e => e = field_too_large
  end.
Proof.
  intros [body [Hbody Hline]] Hs. revert self Hs.
  assert (Htail : forall self,
             match feed_line self nl with
             | Ok _ => True
             | Raise e => e = field_too_large
             end).
  { intros self. cbn [nl str1 feed_line].
    assert (H := step_line_feed self).
    destruct (parse_process_char self (Some LF)) as [r|e]; [|exact H].
    cbn. destruct (step_end r) as [r' [-> _]]. exact I. }
  assert (Hnil : forall self,
             match feed_line self EmptyString with
             | Ok _ => True
             | Raise e => e = field_too_large
             end).
  { intros self. cbn. destruct (step_end self) as [r' [-> _]]. exact I. }
  destruct Hline as [-> | ->];
    induction body as [|c body IH]; intros self Hs;
    try apply Hnil; try apply Htail;
    cbn [no_crlf] in Hbody; apply andb_true_iff in Hbody;
    destruct Hbody as [Hc Hb]; apply negb_true_iff in Hc;
    cbn [append feed_line];
    assert (H := step_plain self c Hc Hs);
    destruct (parse_process_char self (Some c)) as [r|e]; try exact H;
    cbn; now apply IH.
Qed.

Lemma reader_from_clean (lines : list string) (self : ReaderObj) :
  Forall clean_line lines -> state self <> EAT_CRNL ->
  reader_error (gen_end (reader_from self lines)).
Proof.
  revert self. induction lines as [|line rest IH]; intros self Hl Hs.
  - cbn. destruct (_ || _); now left.
  - inversion Hl as [|? ? Hline Hrest]; subst. cbn [reader_from].
    assert (H := feed_line_clean line self Hline Hs).
    destruct (feed_line self line) as [r|e] eqn:E.
    + destruct (state_eqb (state r) START_RECORD); cbn [gen_end].
      * apply IH; [assumption | discriminate].
      * apply IH; [assumption|].
        apply feed_line_end_state in E. destruct E as [-> | ->]; discriminate.
    + right. now subst.
Qed.

Lemma no_crlf_app (a b : string) :
  no_crlf (a ++ b) = no_crlf a && no_crlf b.
Proof.
  induction a as [|c a IH]; [reflexivity|]. cbn. now rewrite IH, andb_assoc.
Qed.

Lemma readlines_from_clean (text line : string) :
  has_char CR text = false -> no_crlf line = true ->
  Forall clean_line (readlines_from line text).
Proof.
  revert line. induction text as [|c text IH]; intros line Ht Hl.
  - cbn. destruct line; [constructor|]. repeat constructor. eexists. eauto.
  - cbn [has_char] in Ht. apply orb_false_iff in Ht. destruct Ht as [Hc Ht].
    cbn [readlines_from]. destruct (Ascii.eqb c LF) eqn:E.
    + constructor; [eexists; eauto | now apply IH].
    + apply IH; [assumption|]. rewrite no_crlf_app, Hl. cbn.
      unfold is_crlf. now rewrite E, Hc.
Qed.

Lemma one_line_app (a b : string) :
  one_line (a ++ b) = one_line a && one_line b.
Proof.
  induction a as [|c a IH]; [reflexivity|]. cbn. now rewrite IH, andb_assoc.
Qed.

(** The lines of a text have no line boundary inside. *)
Lemma splitlines_from_one_line (n : nat) (s acc : string) :
  (String.length s <= n)%nat -> one_line acc = true ->
  Forall (fun line => one_line line = true) (splitlines_from acc s).
Proof.
  revert s acc. induction n as [|n IH]; intros s acc Hn Hacc.
  - destruct s; [|simpl in Hn; lia]. cbn. destruct acc; repeat constructor.
    exact Hacc.
  - destruct s as [|c rest].
    + cbn. destruct acc; repeat constructor. exact Hacc.
    + cbn [String.length] in Hn. cbn [splitlines_from].
      destruct (is_linebreak c) eqn:E.
      * constructor; [exact Hacc|].
        destruct rest as [|c' rest']; [apply IH; [simpl; lia | reflexivity]|].
        destruct (Ascii.eqb c CR && Ascii.eqb c' LF).
        -- apply IH; [cbn [String.length] in Hn; lia | reflexivity].
        -- apply IH; [lia | reflexivity].
      * apply IH; [lia|]. rewrite one_line_app, Hacc. cbn. now rewrite E.
Qed.

Lemma one_line_no_cr (s : string) : one_line s = true -> has_char CR s = false.
Proof.
  induction s as [|c s IH]; [reflexivity|]. cbn [one_line has_char]. intros H.
  apply andb_true_iff in H. destruct H as [Hc Hs]. rewrite (IH Hs), orb_false_r.
  destruct (Ascii.eqb_spec c CR) as [->|]; [discriminate Hc | reflexivity].
Qed.

Lemma join_nl_no_cr (lines : list string) :
  Forall (fun line => one_line line = true) lines ->
  has_char CR (join nl lines) = false.
Proof.
  unfold join. induction lines as [|l [|l' lines] IH]; intros H.
  - reflexivity.
  - inversion H; subst. now apply one_line_no_cr.
  - inversion H as [|? ? Hl Hrest]; subst.
    change (String.concat nl (l :: l' :: lines))
      with (l ++ nl ++ String.concat nl (l' :: lines)).
    rewrite !has_char_app, (one_line_no_cr _ Hl), (IH Hrest). reflexivity.
Qed.

Lemma Forall_skipn {A} (P : A -> Prop) (n : nat) (l : list A) :
  Forall P l -> Forall P (skipn n l).
Proof.
  revert l. induction n as [|n IH]; intros l H; [exact H|].
  destruct l; [constructor|]. inversion H; subst. now apply IH.
Qed.

(** From the header line on, reading the records of a text raises
    nothing but the error of the field limit. *)
Lemma records_error (csv_text : string) (i : nat) :
  reader_error (gen_end (records csv_text i)).
Proof.
  unfold records, reader, StringIO.
  apply reader_from_clean; [|discriminate].
  apply readlines_from_clean; [|reflexivity].
  apply join_nl_no_cr, Forall_skipn.
  apply (splitlines_from_one_line (String.length csv_text)); [lia | reflexivity].
Qed.

Lemma str_or_none_set (d : dict) (k : string) (v : value) :
  (exists s, v = Str s) \/ v = NoneV ->
  str_or_none d -> str_or_none (dict_set d (Some k) v).
Proof.
  intros Hv H q default. destruct (String.eqb k q) eqn:E.
  - apply String.eqb_eq in E. subst q. rewrite get_dict_set_same. exact Hv.
  - rewrite get_dict_set_other by exact E. apply H.
Qed.

Lemma make_row_str_or_none (fieldnames row : list string) :
  str_or_none (make_row fieldnames row).
Proof.
  unfold make_row.
  assert (Hzip : forall fn r d, str_or_none d -> str_or_none (dict_zip d fn r)).
  { induction fn as [|k ks IH]; intros r d H; [exact H|].
    destruct r as [|v vs]; [exact H|]. cbn [dict_zip].
    apply IH. apply str_or_none_set; [left; now exists v | exact H]. }
  assert (Hfold : forall keys d, str_or_none d ->
             str_or_none (fold_left (fun d key => dict_set d (Some key) NoneV) keys d)).
  { induction keys as [|k ks IH]; intros d H; [exact H|].
    cbn [fold_left]. apply IH. apply str_or_none_set; [now right | exact H]. }
  assert (Hd : str_or_none (dict_zip [] fieldnames row)).
  { apply Hzip. intros q default. left. now exists default. }
  destruct (List.length fieldnames <? List.length row)%nat.
  - intros q default. rewrite get_dict_set_other by reflexivity. apply Hd.
  - destruct (List.length row <? List.length fieldnames)%nat; [now apply Hfold | exact Hd].
Qed.

Lemma row_fields_raise (row : dict) (e : exn) :
  str_or_none row -> row_fields row = Raise e -> e = no_strip "NoneType".
Proof.
  intros H. unfold row_fields.
  destruct (H "Callsign" EmptyString) as [[c ->] | ->]; cbn; [|now inversion 1].
  destruct (H "Name" EmptyString) as [[n ->] | ->]; cbn; [|now inversion 1].
  destruct (H "Join Date" EmptyString) as [[d ->] | ->]; cbn; [|now inversion 1].
  destruct (H "QC #" "0") as [[q ->] | ->]; cbn; [discriminate | now inversion 1].
Qed.

Lemma for_rows_dict_rows_raise (fieldnames : list string)
    (g : gen (list string)) (members : list member) (e : exn) :
  for_rows (dict_rows fieldnames g) members = Raise e ->
  gen_end g = Some e \/ e = no_strip "NoneType".
Proof.
  revert members. induction g as [|row rest IH|e']; intros members H.
  - discriminate H.
  - cbn [dict_rows] in H. cbn [gen_end].
    destruct row as [|f row]; [now apply (IH members)|].
    cbn [for_rows] in H. unfold row_body in H.
    destruct (row_fields (make_row fieldnames (f :: row))) as [m|e0] eqn:E.
    + cbn in H. destruct (is_valid m); now apply IH in H.
    + cbn in H. inversion H; subst. right.
      apply (row_fields_raise _ _ (make_row_str_or_none _ _) E).
  - cbn in H. inversion H; subst. now left.
Qed.




(** ** The field limit *)

Lemma step_field_len (self : ReaderObj) (c : option ascii) :
  (field_len self < field_limit)%N ->
  (exists self', parse_process_char self c = Ok self'
                 /\ (field_len self' <= field_len self + 1)%N
                 /\ (c = None -> field_len self' <= field_len self)%N)
  \/ (exists msg, parse_process_char self c = Raise (Exn CsvError msg)
                  /\ msg <> exn_msg field_too_large).
Proof.
  intros Hlen. assert (L : (field_limit <=? field_len self)%N = false)
    by (apply N.leb_gt; exact Hlen).
  unfold parse_process_char, parse_add_char.
  destruct (state self) eqn:E; destruct c as [c|];
    try destruct (is_crlf c); try destruct (Ascii.eqb c quotechar);
    try destruct (Ascii.eqb c delimiter); cbn; rewrite ?L; cbn;
    try (left; eexists; split; [reflexivity|]; cbn; split;
         [lia | intros H; first [discriminate H | lia]]).
  all: right; eexists; split; [reflexivity | discriminate].
Qed.

Lemma feed_line_field_len (line : string) (self : ReaderObj) :
  (field_len self + N.of_nat (String.length line) < field_limit)%N ->
  match feed_line self line with
  | Ok self' =>
      (field_len self' <= field_len self + N.of_nat (String.length line))%N
  | Raise e => e <> field_too_large
  end.
Proof.
  revert self. induction line as [|c line IH]; intros self H.
  - cbn [feed_line]. destruct (step_field_len self None) as [[r [-> [_ Hr]]]|[msg [-> Hm]]];
      [cbn [String.length] in H; lia | | ].
    + specialize (Hr eq_refl). cbn [String.length]. lia.
    + intros He. apply Hm. now inversion He.
  - cbn [feed_line String.length] in *.
    destruct (step_field_len self (Some c)) as [[r [-> [Hr _]]]|[msg [-> Hm]]]; [lia | | ].
    + cbn. assert (IHr := IH r). 
      destruct (feed_line r line); [|apply IHr; lia].
      assert (Hx : (field_len a <= field_len r + N.of_nat (String.length line))%N)
        by (apply IHr; lia).
      lia.
    + cbn. intros He. apply Hm. now inversion He.
Qed.

Lemma reader_from_field_len (lines : list string) (self : ReaderObj) :
  (field_len self + N.of_nat (total_length lines) < field_limit)%N ->
  gen_end (reader_from self lines) <> Some field_too_large.
Proof.
  revert self. induction lines as [|line rest IH]; intros self H.
  - cbn. destruct (_ || _); discriminate.
  - cbn [reader_from total_length] in *.
    assert (Hf := feed_line_field_len line self ltac:(lia)).
    destruct (feed_line self line) as [r|e].
    + destruct (state_eqb (state r) START_RECORD); cbn [gen_end].
      * apply IH. cbn. lia.
      * apply IH. lia.
    + cbn. intros He. apply Hf. now inversion He.
Qed.

Lemma readlines_from_total (text line : string) :
  total_length (readlines_from line text)
  = (String.length line + String.length text)%nat.
Proof.
  revert line. induction text as [|c text IH]; intros line.
  - cbn. destruct line; cbn; lia.
  - cbn [readlines_from]. destruct (Ascii.eqb c LF).
    + cbn [total_length]. rewrite IH, length_app. cbn. lia.
    + rewrite IH, length_app. cbn. lia.
Qed.

Lemma join_length (lines : list string) :
  (String.length (join nl lines) <= separated_length lines)%nat.
Proof.
  unfold join. induction lines as [|l [|l' lines] IH].
  - reflexivity.
  - cbn. lia.
  - change (String.concat nl (l :: l' :: lines))
      with (l ++ nl ++ String.concat nl (l' :: lines)).
    rewrite !length_app. cbn [separated_length] in *. cbn [String.length nl str1]. lia.
Qed.

Lemma separated_length_skipn (n : nat) (lines : list string) :
  (separated_length (skipn n lines) <= separated_length lines)%nat.
Proof.
  revert lines. induction n as [|n IH]; intros lines; [reflexivity|].
  destruct lines as [|l lines]; [reflexivity|]. cbn. specialize (IH lines). lia.
Qed.

(** Splitting a text into lines and counting a separator after each line
    gives at most one character more than the text has. *)
Lemma splitlines_from_separated (n : nat) (s acc : string) :
  (String.length s <= n)%nat ->
  (separated_length (splitlines_from acc s)
   <= String.length acc + String.length s + 1)%nat.
Proof.
  revert s acc. induction n as [|n IH]; intros s acc Hn.
  - destruct s; [|simpl in Hn; lia]. cbn. destruct acc; cbn; lia.
  - destruct s as [|c rest].
    + cbn. destruct acc; cbn; lia.
    + cbn [String.length] in Hn. cbn [splitlines_from].
      destruct (is_linebreak c).
      * cbn [separated_length String.length].
        destruct rest as [|c' rest'].
        -- cbn. lia.
        -- destruct (Ascii.eqb c CR && Ascii.eqb c' LF).
           ++ assert (H := IH rest' EmptyString). cbn [String.length] in *.
              specialize (H ltac:(lia)). lia.
           ++ assert (H := IH (String c' rest') EmptyString ltac:(lia)).
              cbn [String.length] in *. lia.
      * assert (H := IH rest (acc ++ str1 c) ltac:(lia)).
        rewrite length_app in H. cbn [String.length str1] in *. lia.
Qed.

Lemma records_short_text (csv_text : string) (i : nat) :
  (N.of_nat (String.length csv_text) < 131071)%N ->
  gen_end (records csv_text i) <> Some field_too_large.
Proof.
  intros H. unfold records, reader, StringIO.
  apply reader_from_field_len. rewrite readlines_from_total.
  cbn [parse_reset field_len String.length].
  assert (H1 := join_length (skipn i (splitlines csv_text))).
  assert (H2 := separated_length_skipn i (splitlines csv_text)).
  assert (H3 := splitlines_from_separated (String.length csv_text) csv_text
                  EmptyString ltac:(lia)).
  unfold splitlines in *. cbn [String.length] in H3.
  unfold field_limit. lia.
Qed.

(** X16: a text of fewer than 131071 characters cannot reach the field
    limit: the only thing [parse_members] can raise on it is the
    AttributeError of a row shorter than the header. *)
Theorem parse_members_short_text (csv_text : string) (e : exn) :
  (N.of_nat (String.length csv_text) < 131071)%N ->
  parse_members csv_text = Raise e ->
  e = no_strip "NoneType".
Proof.
  intros Hlen. unfold parse_members.
  destruct (find_header 0 (splitlines csv_text)) as [i|]; [|discriminate].
  rewrite data_rows_records.
  assert (Hshort := records_short_text csv_text i Hlen).
  assert (Herr := records_error csv_text i).
  destruct (records csv_text i) as [|fieldnames rest|e'] eqn:R.
  - discriminate.
  - cbn [gen_end] in *.
    destruct (for_rows (dict_rows fieldnames rest) []) as [out|e0] eqn:F;
      cbn; [discriminate|].
    intros H. inversion H; subst.
    apply for_rows_dict_rows_raise in F. destruct F as [F|F]; [|exact F].
    destruct Herr as [Herr|Herr]; rewrite F in Herr; [discriminate|].
    rewrite F in Hshort. now elim Hshort.
  - cbn [gen_end] in *. destruct Herr as [Herr|Herr]; [discriminate|].
    now elim Hshort.
Qed.

Lemma parse_members_short_text_witness :
  no_strip "NoneType" = no_strip "NoneType".
Proof.
  apply (parse_members_short_text short_row_csv (no_strip "NoneType")).
  - vm_compute. reflexivity.
  - vm_compute. reflexivity.
Defined.
